(** * A Bloom filter service (lab2/main.py): model and properties

    The development embeds the [BloomFilter] class of [lab2/main.py] and the
    three endpoints built around the process-wide [bloom_filter] variable,
    and proves the properties of the membership structure: indices in range,
    no false negatives, idempotent insertion, replacement on
    re-initialisation, and the behaviour of the constructor on the
    parameters it receives.

    Python values are modelled as follows.
    - [int] is [Z] (unbounded); [%] is [Z.modulo] with the zero divisor
      raising.
    - [float] is the IEEE 754 binary64 format of [SpecFloat]
      ([prec = 53], [emax = 1024]); [/], [*] and [round] are the correctly
      rounded operations.
    - [str] is [string], read as the UTF-8 bytes of the text, so that
      [s.encode('utf-8')] is the list of its bytes. A text that holds a
      lone surrogate, on which [encode] raises, has no counterpart in
      [string]; [Py.text_encode] tells which texts have one.
    - an exception is a value of [exn]; a computation that may raise
      returns a [result]. *)

From Stdlib Require Import ZArith Lia Bool Ascii String.
From Stdlib Require Import DecimalString DecimalZ DecimalPos.
From Stdlib Require Import Floats.SpecFloat.
From stdpp Require Import base list strings gmap.

Local Open Scope Z_scope.

(** ** Python: exceptions, integers, floats, strings *)

Module Py.

Inductive exn : Type :=
| ValueError
| ZeroDivisionError
| OverflowError
| TypeError
| IndexError.

Inductive result (A : Type) : Type :=
| Return (a : A)
| Raise (e : exn).
Arguments Return {A} a.
Arguments Raise {A} e.

Definition bind {A B : Type} (r : result A) (k : A -> result B) : result B :=
  match r with
  | Return a => k a
  | Raise e => Raise e
  end.

(** [a % b] on integers: the remainder has the sign of the divisor. *)
Definition int_mod (a b : Z) : result Z :=
  if b =? 0 then Raise ZeroDivisionError else Return (a mod b).

(** [range(n)] as the list of its values; empty when [n <= 0]. *)
Definition range (n : Z) : list Z :=
  map Z.of_nat (seq 0 (Z.to_nat n)).

(** [str(k)] for an integer: decimal digits, with a leading minus sign. *)
Definition str (k : Z) : string :=
  NilZero.string_of_int (Z.to_int k).

(** [l[i]] for a list: a negative index counts from the end. *)
Definition list_getitem {A : Type} (l : list A) (i : Z) : result A :=
  let len := Z.of_nat (length l) in
  let j := if i <? 0 then i + len else i in
  if (j <? 0) || (len <=? j) then Raise IndexError
  else match l !! Z.to_nat j with
       | Some x => Return x
       | None => Raise IndexError
       end.

(** *** binary64 *)

Definition prec : Z := 53.
Definition emax : Z := 1024.

(** An integer as an exact (not yet rounded) binary operand. *)
Definition exact_int (a : Z) : spec_float :=
  match a with
  | Z0 => S754_zero false
  | Zpos p => S754_finite false p 0
  | Zneg p => S754_finite true p 0
  end.

(** [a / b] on integers: the quotient of the two integers, rounded once
    to the nearest float; a zero divisor and a quotient beyond the
    largest float raise. *)
Definition int_true_div (a b : Z) : result spec_float :=
  if b =? 0 then Raise ZeroDivisionError
  else match SFdiv prec emax (exact_int a) (exact_int b) with
       | S754_infinity _ => Raise OverflowError
       | q => Return q
       end.

Definition float_mul (x y : spec_float) : spec_float :=
  SFmul prec emax x y.

(** [math.log(2)]: the float nearest to ln 2, 0x1.62e42fefa39efp-1,
    printed 0.6931471805599453. *)
Definition math_log_2 : spec_float :=
  S754_finite false 0x162E42FEFA39EF (-53).

(** The integer nearest to [m * 2^e], ties to the even one. *)
Definition nearest_even (m e : Z) : Z :=
  if 0 <=? e then m * 2 ^ e
  else
    let d := 2 ^ (- e) in
    let q := m / d in
    match (2 * (m mod d)) ?= d with
    | Lt => q
    | Gt => q + 1
    | Eq => if Z.even q then q else q + 1
    end.

(** [round(x)] on a float, without [ndigits]: an integer, ties to even;
    raises on infinities and on NaN. *)
Definition round (x : spec_float) : result Z :=
  match x with
  | S754_nan => Raise ValueError
  | S754_infinity _ => Raise OverflowError
  | S754_zero _ => Return 0
  | S754_finite s m e => Return (cond_Zopp s (nearest_even (Zpos m) e))
  end.

(** *** bytes and hexadecimal text *)

Definition hex_char (d : N) : ascii :=
  ascii_of_N (if (d <? 10)%N then 48 + d else 87 + d)%N.

(** [bytes.hex()]: two lower-case digits per byte. *)
Fixpoint hexlify (bs : list Byte.byte) : string :=
  match bs with
  | [] => EmptyString
  | b :: bs' =>
      let n := Byte.to_N b in
      String (hex_char (n / 16)%N) (String (hex_char (n mod 16)%N) (hexlify bs'))
  end.

Definition hex_digit_value (c : ascii) : option Z :=
  let n := Z.of_N (N_of_ascii c) in
  if (48 <=? n) && (n <=? 57) then Some (n - 48)
  else if (97 <=? n) && (n <=? 102) then Some (n - 87)
  else if (65 <=? n) && (n <=? 70) then Some (n - 55)
  else None.

Fixpoint int16_digits (s : string) (acc : Z) : result Z :=
  match s with
  | EmptyString => Return acc
  | String c s' =>
      match hex_digit_value c with
      | Some d => int16_digits s' (16 * acc + d)
      | None => Raise ValueError
      end
  end.

(** [int(s, 16)] on a text made of hexadecimal digits only, which is what
    [hexdigest] produces; the empty text and any other character raise
    [ValueError]. (Python also reads a sign, a [0x] prefix, underscores
    and surrounding blanks; no digest text contains them.) *)
Definition int16 (s : string) : result Z :=
  match s with
  | EmptyString => Raise ValueError
  | _ => int16_digits s 0
  end.

(** [int.from_bytes(bs, 'big')], continuing from [acc]: the integer a
    digest denotes. *)
Fixpoint big_endian (bs : list Byte.byte) (acc : Z) : Z :=
  match bs with
  | [] => acc
  | b :: bs' => big_endian bs' (256 * acc + Z.of_N (Byte.to_N b))
  end.

(** [s.encode('utf-8')], for a text that a [string] stands for. *)
Definition encode_utf8 (s : string) : list Byte.byte :=
  String.list_byte_of_string s.

(** A [str] as Python holds it: a sequence of code points, among which a
    surrogate (U+D800 to U+DFFF) may stand alone. *)
Definition text : Type := list N.

(** The UTF-8 bytes of one code point. A surrogate has none: [encode]
    raises UnicodeEncodeError, which is a ValueError. No [str] holds an
    element above U+10FFFF. *)
Definition encode_code_point (c : N) : result (list ascii) :=
  if (c <? 0x80)%N then
    Return [ascii_of_N c]
  else if (c <? 0x800)%N then
    Return [ascii_of_N (0xC0 + c / 0x40); ascii_of_N (0x80 + c mod 0x40)]
  else if (0xD800 <=? c)%N && (c <=? 0xDFFF)%N then
    Raise ValueError
  else if (c <? 0x10000)%N then
    Return [ascii_of_N (0xE0 + c / 0x1000);
            ascii_of_N (0x80 + (c / 0x40) mod 0x40);
            ascii_of_N (0x80 + c mod 0x40)]
  else if (c <? 0x110000)%N then
    Return [ascii_of_N (0xF0 + c / 0x40000);
            ascii_of_N (0x80 + (c / 0x1000) mod 0x40);
            ascii_of_N (0x80 + (c / 0x40) mod 0x40);
            ascii_of_N (0x80 + c mod 0x40)]
  else
    Raise ValueError.

(** [s.encode('utf-8')] on a [str] of any content: the [string] that
    stands for [s], or the exception of the first code point that cannot
    be encoded. *)
Fixpoint text_encode (s : text) : result string :=
  match s with
  | [] => Return EmptyString
  | c :: s' =>
      bind (encode_code_point c) (fun bs =>
      bind (text_encode s') (fun rest => Return (fold_right String rest bs)))
  end.

End Py.

Import Py.

(** [result] is used through stdpp's monad notation [x ← c; k]. *)
#[global] Instance result_ret : MRet result := @Return.
#[global] Instance result_bind : MBind result := fun A B k r => Py.bind r k.

(** ** The [bitarray] package: a fixed-length array of bits *)

Module Bitarray.

(** The lengths that fit the index type of a 64-bit host
    ([Py_ssize_t]). The package refuses any other length before looking at
    it further, and an allocation may fail for want of memory: the model
    leaves both out, and the statements about the constructor are made
    for index-sized lengths. *)
Definition index_sized (n : Z) : Prop := - 2 ^ 63 <= n < 2 ^ 63.

(** [bitarray(n)]: [n] bits; a negative length raises [ValueError]. *)
Definition new (n : Z) : result (list bool) :=
  if n <? 0 then Raise ValueError
  else Return (replicate (Z.to_nat n) false).

(** [a.setall(v)] *)
Definition setall (a : list bool) (v : bool) : list bool :=
  replicate (length a) v.

(** The position an index designates: a negative index counts from the
    end, and an index outside the array raises [IndexError]. *)
Definition position (a : list bool) (i : Z) : result nat :=
  let len := Z.of_nat (length a) in
  let j := if i <? 0 then i + len else i in
  if (j <? 0) || (len <=? j) then Raise IndexError
  else Return (Z.to_nat j).

(** [a[i]] *)
Definition getitem (a : list bool) (i : Z) : result bool :=
  p ← position a i;
  match a !! p with
  | Some b => Return b
  | None => Raise IndexError
  end.

(** [a[i] = v] *)
Definition setitem (a : list bool) (i : Z) (v : bool) : result (list bool) :=
  p ← position a i;
  Return (<[p := v]> a).

End Bitarray.

(** ** The [hashlib] module, as the filter sees it *)

(** [algorithms_available] is the set of names [hashlib] accepts on the
    running interpreter. [digest name data] is the digest that
    [hashlib.new(name)] yields after [update(data)], or the exception that
    one of these calls, or [hexdigest()] after them, raises. *)
Class Hashlib : Type := {
  algorithms_available : gset string;
  digest : string -> list Byte.byte -> result (list Byte.byte)
}.

(** ** class BloomFilter *)

Module BloomFilter.

Record t : Type := {
  size : Z;
  number_expected_elements : Z;
  bloom_filter : list bool;
  number_hash_functions : Z;
  (** [hash_functions] holds one closure per configured name; a closure
      is determined by the algorithm name it captured. *)
  hash_functions : list string
}.

Definition with_bits (self : t) (bits : list bool) : t :=
  {| size := size self;
     number_expected_elements := number_expected_elements self;
     bloom_filter := bits;
     number_hash_functions := number_hash_functions self;
     hash_functions := hash_functions self |}.

Section WithHashlib.
Context {H : Hashlib}.

(** The loop of [__init__] over the names: each name is looked up in
    [hashlib.algorithms_available], and the first one missing raises
    [ValueError]. *)
Fixpoint make_hash_functions (names : list string) (acc : list string)
  : result (list string) :=
  match names with
  | [] => Return acc
  | name :: names' =>
      if decide (name ∈ algorithms_available)
      then make_hash_functions names' (acc ++ [name])
      else Raise ValueError
  end.

(** [round((size / number_expected_elements) * math.log(2))] *)
Definition optimal_number_hash_functions (size n : Z) : result Z :=
  q ← int_true_div size n;
  round (float_mul q math_log_2).

(** [BloomFilter(size, number_expected_elements, hash_function_names)] *)
Definition __init__ (size number_expected_elements : Z)
    (hash_function_names : option (list string)) : result t :=
  bits ← Bitarray.new size;
  let bits := Bitarray.setall bits false in
  k ← optimal_number_hash_functions size number_expected_elements;
  let hash_function_names :=
    match hash_function_names with
    | None => ["md5"%string]
    | Some names => names
    end in
  fns ← make_hash_functions hash_function_names [];
  Return {| size := size;
            number_expected_elements := number_expected_elements;
            bloom_filter := bits;
            number_hash_functions := k;
            hash_functions := fns |}.

(** The closure [hash_func] built for [algorithm]:
    [int(hasher.hexdigest(), 16) % self.size]. *)
Definition hash_func (self : t) (algorithm : string) (s : string) : result Z :=
  d ← digest algorithm (encode_utf8 s);
  v ← int16 (hexlify d);
  int_mod v (size self).

(** [self.hash_functions[k % len(self.hash_functions)](item + str(k))] *)
Definition _hash (self : t) (item : string) (k : Z) : result Z :=
  i ← int_mod k (Z.of_nat (length (hash_functions self)));
  algorithm ← list_getitem (hash_functions self) i;
  hash_func self algorithm (item +:+ str k).

(** The loop of [add_to_filter] over the remaining rounds. The bit
    array is updated in place: when a round raises, the bits set by
    the rounds before it stay set. *)
Fixpoint add_rounds (self : t) (item : string) (rounds : list Z)
  : t * result unit :=
  match rounds with
  | [] => (self, Return tt)
  | i :: rounds' =>
      match _hash self item i with
      | Raise e => (self, Raise e)
      | Return index =>
          match Bitarray.setitem (bloom_filter self) index true with
          | Raise e => (self, Raise e)
          | Return bits => add_rounds (with_bits self bits) item rounds'
          end
      end
  end.

Definition add_to_filter (self : t) (item : string) : t * result unit :=
  add_rounds self item (range (number_hash_functions self)).

(** The loop of [check_is_not_in_filter]; it leaves at the first round
    whose bit is 0. *)
Fixpoint check_rounds (self : t) (item : string) (rounds : list Z)
  : result bool :=
  match rounds with
  | [] => Return false
  | i :: rounds' =>
      index ← _hash self item i;
      b ← Bitarray.getitem (bloom_filter self) index;
      if negb b then Return true
      else check_rounds self item rounds'
  end.

Definition check_is_not_in_filter (self : t) (item : string) : result bool :=
  check_rounds self item (range (number_hash_functions self)).

End WithHashlib.

End BloomFilter.

(** ** The endpoints and the process-wide filter *)

Module App.

Record BloomFilterConfig : Type := {
  size : Z;
  number_expected_elements : Z;
  hash_function_names : list string
}.

(** The bodies of the successful answers. *)
Inductive message : Type :=
| Initialized
| Added (key : string)
| DefinitelyAbsent (key : string)
| PossiblyPresent (key : string).

(** The [detail] of an [HTTPException]. *)
Inductive detail : Type :=
| InvalidConfiguration
| NotInitialized.

(** What a call of an endpoint produces: a body, an [HTTPException]
    raised by the endpoint, or an exception that leaves it uncaught. *)
Inductive response : Type :=
| Ok (m : message)
| HTTPException (status_code : Z) (d : detail)
| Uncaught (e : exn).

(** The global [bloom_filter]: [None] until an initialisation succeeds. *)
Definition state : Type := option BloomFilter.t.

Definition initial : state := None.

Section WithHashlib.
Context {H : Hashlib}.

(** POST /init. The global is assigned only when the constructor
    returns; [ValueError] is turned into a 400 answer and any other
    exception leaves the endpoint. *)
Definition init_bloom_filter (bloom_filter : state) (config : BloomFilterConfig)
  : state * response :=
  match BloomFilter.__init__ (size config) (number_expected_elements config)
          (Some (hash_function_names config)) with
  | Return f => (Some f, Ok Initialized)
  | Raise ValueError => (bloom_filter, HTTPException 400 InvalidConfiguration)
  | Raise e => (bloom_filter, Uncaught e)
  end.

(** POST /add *)
Definition add_item (bloom_filter : state) (key : string) : state * response :=
  match bloom_filter with
  | None => (bloom_filter, HTTPException 400 NotInitialized)
  | Some f =>
      match BloomFilter.add_to_filter f key with
      | (f', Return _) => (Some f', Ok (Added key))
      | (f', Raise e) => (Some f', Uncaught e)
      end
  end.

(** GET /check/{key} *)
Definition check_item (bloom_filter : state) (key : string) : state * response :=
  match bloom_filter with
  | None => (bloom_filter, HTTPException 400 NotInitialized)
  | Some f =>
      match BloomFilter.check_is_not_in_filter f key with
      | Return true => (bloom_filter, Ok (DefinitelyAbsent key))
      | Return false => (bloom_filter, Ok (PossiblyPresent key))
      | Raise e => (bloom_filter, Uncaught e)
      end
  end.

Inductive request : Type :=
| Init (config : BloomFilterConfig)
| Add (key : string)
| Check (key : string).

Definition handle (bloom_filter : state) (r : request) : state * response :=
  match r with
  | Init config => init_bloom_filter bloom_filter config
  | Add key => add_item bloom_filter key
  | Check key => check_item bloom_filter key
  end.

(** A sequence of calls, served one after the other: the final global
    and the answers in order. *)
Fixpoint serve (bloom_filter : state) (rs : list request)
  : state * list response :=
  match rs with
  | [] => (bloom_filter, [])
  | r :: rs' =>
      let '(s1, a) := handle bloom_filter r in
      let '(s2, answers) := serve s1 rs' in
      (s2, a :: answers)
  end.

End WithHashlib.

(** The two errors of the interface, as the endpoints report them. *)
Definition ConfigurationError (a : response) : Prop :=
  a = HTTPException 400 InvalidConfiguration.

Definition UninitializedError (a : response) : Prop :=
  a = HTTPException 400 NotInitialized.

End App.

(** ** A small interpreter setting used to run the model on examples *)

Module Sample.

(** Three names are accepted. ["md5"] and ["sha256"] stand for two
    digests that always answer (here the data itself, and the data
    reversed); ["shake_128"] is accepted by name but its [hexdigest()]
    needs a length, so every use raises [TypeError]. *)
Definition sample_digest (name : string) (data : list Byte.byte)
  : result (list Byte.byte) :=
  if decide (name = "md5"%string) then Return data
  else if decide (name = "sha256"%string) then Return (rev data)
  else if decide (name = "shake_128"%string) then Raise TypeError
  else Raise ValueError.

Definition hashlib : Hashlib := {|
  algorithms_available := {[ "md5"%string; "sha256"%string; "shake_128"%string ]};
  digest := sample_digest
|}.

Definition config (size n : Z) (names : list string) : App.BloomFilterConfig :=
  {| App.size := size;
     App.number_expected_elements := n;
     App.hash_function_names := names |}.

(** A run used in the examples: an instance of 20 bits tuned for 3
    elements, the key ["abc"] added to it, and a few more calls. *)
Definition fresh : App.state :=
  (App.init_bloom_filter (H := hashlib) App.initial
     (config 20 3 ["md5"%string; "sha256"%string])).1.

Definition with_abc : App.state :=
  (App.add_item (H := hashlib) fresh "abc").1.

Definition later_calls : list App.request :=
  [App.Add "abd"%string; App.Check "xyz"%string; App.Add "x"%string].

Definition after_calls : App.state :=
  (App.serve (H := hashlib) with_abc later_calls).1.

(** The instance that replaces the one holding ["abc"]. *)
Definition replaced : App.state :=
  (App.init_bloom_filter (H := hashlib) with_abc (config 20 3 ["sha256"%string])).1.

(** Three instances as the constructor builds them: 20 bits and 5 rounds
    over two algorithms, a single bit with one round, and two bits with
    one round. *)
Definition twenty_bits : BloomFilter.t :=
  {| BloomFilter.size := 20;
     BloomFilter.number_expected_elements := 3;
     BloomFilter.bloom_filter := replicate 20 false;
     BloomFilter.number_hash_functions := 5;
     BloomFilter.hash_functions := ["md5"%string; "sha256"%string] |}.

Definition one_bit : BloomFilter.t :=
  {| BloomFilter.size := 1;
     BloomFilter.number_expected_elements := 1;
     BloomFilter.bloom_filter := [false];
     BloomFilter.number_hash_functions := 1;
     BloomFilter.hash_functions := ["md5"%string] |}.

Definition two_bits : BloomFilter.t :=
  {| BloomFilter.size := 2;
     BloomFilter.number_expected_elements := 2;
     BloomFilter.bloom_filter := [false; false];
     BloomFilter.number_hash_functions := 1;
     BloomFilter.hash_functions := ["sha256"%string] |}.

(** The keys ["abc"] and ["abd"] added between a /check and an /init that
    fails (no expected element). *)
Definition mixed_calls : list App.request :=
  [App.Check "abc"%string;
   App.Add "abc"%string;
   App.Init (config 5 0 ["md5"%string]);
   App.Add "abd"%string;
   App.Check "abd"%string].

(** Calls made before any instance exists. *)
Definition early_calls : list App.request :=
  [App.Add "abc"%string;
   App.Init (config 5 1 ["nope"%string]);
   App.Check "abc"%string;
   App.Init (config 5 0 ["md5"%string])].

End Sample.

(** ** Vocabulary of the statements *)

(** [grows f g]: [g] is [f] with possibly more bits set, and nothing else
    changed. *)
Record grows (f g : BloomFilter.t) : Prop := {
  grows_size : BloomFilter.size g = BloomFilter.size f;
  grows_expected :
    BloomFilter.number_expected_elements g = BloomFilter.number_expected_elements f;
  grows_rounds :
    BloomFilter.number_hash_functions g = BloomFilter.number_hash_functions f;
  grows_functions : BloomFilter.hash_functions g = BloomFilter.hash_functions f;
  grows_length :
    length (BloomFilter.bloom_filter g) = length (BloomFilter.bloom_filter f);
  grows_bits : forall p : nat,
    BloomFilter.bloom_filter f !! p = Some true ->
    BloomFilter.bloom_filter g !! p = Some true
}.

(** The shape of a float that [round] turns into an integer and that
    leaves room for a multiplication by a number below 1. *)
Definition moderate (q : spec_float) : Prop :=
  match q with
  | S754_zero _ => True
  | S754_finite _ m e => Z.pos m < 2 ^ 53 /\ e <= 969
  | _ => False
  end.

(** A call that leaves the current instance in place (anything but
    /init). *)
Definition keeps_instance (r : App.request) : Prop :=
  match r with
  | App.Init _ => False
  | _ => True
  end.

(** A call to /add or /check whose key can be encoded in UTF-8: the key
    of the model stands for a text, which then holds no lone surrogate. *)
Definition encodable (r : App.request) : Prop :=
  match r with
  | App.Init _ => False
  | App.Add key | App.Check key =>
      exists s : Py.text, Py.text_encode s = Return key
  end.

(** The keys of the /add calls among [rs], in the order of the calls. *)
Fixpoint added (rs : list App.request) : list string :=
  match rs with
  | [] => []
  | App.Add key :: rs' => key :: added rs'
  | _ :: rs' => added rs'
  end.

(** The answers that the /add calls among [rs] were given, in order. *)
Fixpoint add_answers (rs : list App.request) (answers : list App.response)
  : list App.response :=
  match rs, answers with
  | App.Add _ :: rs', a :: answers' => a :: add_answers rs' answers'
  | _ :: rs', _ :: answers' => add_answers rs' answers'
  | _, _ => []
  end.

(** What [add_to_filter] is about to do over [rounds], read off the
    configuration and the length of the array alone: the positions it
    writes, in order, up to the first round that raises, and how the loop
    ends. *)
Fixpoint plan {H : Hashlib} (f : BloomFilter.t) (item : string) (rounds : list Z)
  : list nat * result unit :=
  match rounds with
  | [] => ([], Return tt)
  | i :: rounds' =>
      match BloomFilter._hash f item i with
      | Raise e => ([], Raise e)
      | Return index =>
          match Bitarray.position (BloomFilter.bloom_filter f) index with
          | Raise e => ([], Raise e)
          | Return p =>
              (p :: (plan f item rounds').1, (plan f item rounds').2)
          end
      end
  end.

(** The array after the bits at [ps] have been set, one after the other. *)
Definition set_all (ps : list nat) (bits : list bool) : list bool :=
  foldl (fun b p => <[p := true]> b) bits ps.

(** The number of bits set. *)
Fixpoint count_true (bits : list bool) : nat :=
  match bits with
  | [] => 0
  | b :: bits' => (if b then 1 else 0) + count_true bits'
  end.

(** The array of an instance has the length the instance was given. *)
Definition well_formed (f : BloomFilter.t) : Prop :=
  0 <= BloomFilter.size f /\
  length (BloomFilter.bloom_filter f) = Z.to_nat (BloomFilter.size f).

(** The digests of the algorithms [names] answer, with a digest that is
    not empty, on every input that is not empty. *)
Definition digests_answer {H : Hashlib} (names : list string) : Prop :=
  forall (name : string) (data : list Byte.byte),
    name ∈ names -> data <> [] ->
    exists d, d <> [] /\ digest name data = Return d.

(** An endpoint answered with a body. *)
Definition answered (a : App.response) : Prop :=
  match a with
  | App.Ok _ => True
  | _ => False
  end.

(** ** Proof automation *)

(** Closes the four parts of the description of an outcome once the
    answer is known; [Hkeep] is the part about the global. *)
Ltac settle_outcome Hkeep :=
  split; [|split; [|split; [|exact Hkeep]]];
  (split; [intros ?; first [discriminate | tauto | lia]
          | intros ?; first [reflexivity | exfalso; intuition lia ]]).

(** ** Properties of the Python layer *)

Lemma bind_Return_inv {A B : Type} (r : result A) (k : A -> result B) (b : B) :
  (r ≫= k) = Return b -> exists a, r = Return a /\ k a = Return b.
Proof.
  destruct r as [a|e]; cbn.
  - intros Hk. exists a. split; [reflexivity | exact Hk].
  - discriminate.
Qed.

Lemma int_mod_Return (a b : Z) :
  b <> 0 -> int_mod a b = Return (a mod b).
Proof.
  intros Hb. unfold int_mod.
  destruct (Z.eqb_spec b 0) as [->|_]; [contradiction | reflexivity].
Qed.

Lemma int_mod_zero (a : Z) : int_mod a 0 = Raise ZeroDivisionError.
Proof. reflexivity. Qed.

Lemma int_mod_inv (a b r : Z) :
  int_mod a b = Return r -> b <> 0 /\ r = a mod b.
Proof.
  unfold int_mod. destruct (Z.eqb_spec b 0) as [->|Hb]; [discriminate |].
  intros [= <-]. split; [exact Hb | reflexivity].
Qed.

Lemma range_nonpos (n : Z) : n <= 0 -> range n = [].
Proof.
  intros Hn. unfold range.
  replace (Z.to_nat n) with 0%nat by lia. reflexivity.
Qed.

Lemma range_pos (n : Z) :
  0 < n -> range n = 0 :: map Z.of_nat (seq 1 (Z.to_nat n - 1)).
Proof.
  intros Hn. unfold range.
  replace (Z.to_nat n) with (S (Z.to_nat n - 1)) at 1 by lia.
  reflexivity.
Qed.

Lemma elem_of_range (n i : Z) : i ∈ range n <-> 0 <= i < n.
Proof.
  unfold range. rewrite list_elem_of_fmap. split.
  - intros (k & -> & Hk). apply elem_of_seq in Hk. lia.
  - intros Hi. exists (Z.to_nat i). split; [lia |].
    apply elem_of_seq. lia.
Qed.

(** [str(k)] is the decimal numeral of [k]: read as a numeral, it gives
    [k] back. *)
Lemma str_reads_back (k : Z) :
  option_map Z.of_int (NilZero.int_of_string (str k)) = Some k.
Proof.
  unfold str. rewrite NilZero.isi.
  - cbn. f_equal. apply DecimalZ.of_to.
  - destruct k; cbn; try discriminate.
    intros [= Hp]. revert Hp. apply Unsigned.to_uint_nonnil.
  - destruct k; cbn; try discriminate.
    intros [= Hp]. revert Hp. apply Unsigned.to_uint_nonnil.
Qed.

Lemma list_getitem_lookup {A : Type} (l : list A) (i : Z) :
  0 <= i < Z.of_nat (length l) ->
  exists x, l !! Z.to_nat i = Some x /\ list_getitem l i = Return x.
Proof.
  intros Hi. unfold list_getitem.
  destruct (Z.ltb_spec i 0) as [?|_]; [lia |].
  destruct (Z.ltb_spec i 0) as [?|_]; [lia |].
  destruct (Z.leb_spec (Z.of_nat (length l)) i) as [?|_]; [lia |].
  cbn [orb].
  destruct (lookup_lt_is_Some_2 l (Z.to_nat i)) as [x Hx]; [lia |].
  exists x. rewrite Hx. split; reflexivity.
Qed.

(** *** Hexadecimal text and the integer it denotes *)

Lemma big_endian_nonneg (bs : list Byte.byte) (acc : Z) :
  0 <= acc -> 0 <= big_endian bs acc.
Proof.
  revert acc. induction bs as [|b bs IH]; intros acc Hacc; cbn.
  - exact Hacc.
  - apply IH. lia.
Qed.

Lemma hex_digit_value_hex_char (d : N) :
  (d < 16)%N -> hex_digit_value (hex_char d) = Some (Z.of_N d).
Proof.
  intros Hd.
  assert (Hcases : In d (map N.of_nat (seq 0 16))).
  { apply in_map_iff. exists (N.to_nat d). split; [lia |].
    apply in_seq. lia. }
  cbn in Hcases.
  repeat (destruct Hcases as [<- | Hcases]; [reflexivity |]).
  destruct Hcases.
Qed.

Lemma int16_digits_hexlify (bs : list Byte.byte) (acc : Z) :
  int16_digits (hexlify bs) acc = Return (big_endian bs acc).
Proof.
  revert acc. induction bs as [|b bs IH]; intros acc; cbn [hexlify int16_digits big_endian].
  - reflexivity.
  - pose proof (Byte.to_N_bounded b) as Hb.
    assert (Hq : (Byte.to_N b / 16 < 16)%N).
    { apply N.Div0.div_lt_upper_bound. lia. }
    assert (Hr : (Byte.to_N b mod 16 < 16)%N) by (apply N.mod_lt; lia).
    rewrite (hex_digit_value_hex_char _ Hq), (hex_digit_value_hex_char _ Hr).
    rewrite IH. f_equal. f_equal.
    rewrite N2Z.inj_div, N2Z.inj_mod.
    pose proof (Z.div_mod (Z.of_N (Byte.to_N b)) 16 ltac:(lia)) as Hdm.
    change (Z.of_N 16) with 16. lia.
Qed.

(** The text of a digest is read back as the big-endian value of its
    bytes; only the empty digest has no value. *)
Lemma int16_hexlify (bs : list Byte.byte) :
  bs <> [] -> int16 (hexlify bs) = Return (big_endian bs 0).
Proof.
  intros Hbs. destruct bs as [|b bs]; [contradiction |].
  unfold int16. cbn [hexlify]. apply (int16_digits_hexlify (b :: bs)).
Qed.

Lemma int16_hexlify_nil : int16 (hexlify []) = Raise ValueError.
Proof. reflexivity. Qed.

Lemma int16_hexlify_nonneg (bs : list Byte.byte) (v : Z) :
  int16 (hexlify bs) = Return v -> bs <> [] /\ v = big_endian bs 0 /\ 0 <= v.
Proof.
  destruct bs as [|b bs]; [discriminate |].
  rewrite int16_hexlify by discriminate.
  intros [= <-]. split; [discriminate |]. split; [reflexivity |].
  apply big_endian_nonneg. lia.
Qed.

(** [encode] on a text of one code point below U+0080 is that byte; on a
    lone surrogate it raises; the code point U+00E9 takes two bytes. *)
Lemma text_encode_examples :
  Py.text_encode [0x61%N] = Return "a"%string /\
  Py.text_encode [0xE9%N] = Return (String "195" (String "169" EmptyString)) /\
  Py.text_encode [0x61%N; 0xD800%N] = Raise ValueError.
Proof. repeat split; reflexivity. Qed.

(** ** Rounding in binary64 *)

Section Binary64.

Lemma digits2_pos_size (p : positive) : digits2_pos p = Pos.size p.
Proof. induction p as [p IH|p IH|]; cbn; rewrite ?IH; reflexivity. Qed.

(** The number of binary digits of a natural number is at most [k]
    exactly when the number is below [2^k]. *)
Lemma Zdigits2_le (m k : Z) :
  0 <= m -> 0 <= k -> Zdigits2 m <= k <-> m < 2 ^ k.
Proof.
  intros Hm Hk. destruct m as [|p|p]; [| |lia].
  - cbn. split; [intros _; apply Z.pow_pos_nonneg; lia | intros _; exact Hk].
  - cbn [Zdigits2]. rewrite digits2_pos_size.
    pose proof (Pos.size_gt p) as Hgt. pose proof (Pos.size_le p) as Hle.
    apply Pos2Z.pos_lt_pos in Hgt. apply Pos2Z.pos_le_pos in Hle.
    rewrite Pos2Z.inj_pow in Hgt, Hle.
    set (d := Z.pos (Pos.size p)) in *.
    assert (Hd : 0 < d) by (unfold d; lia).
    split.
    + intros Hdk. eapply Z.lt_le_trans; [exact Hgt |].
      apply Z.pow_le_mono_r; lia.
    + intros Hlt. destruct (Z.le_gt_cases d k) as [?|Hkd]; [assumption |].
      exfalso.
      assert (Hpow : 2 ^ (k + 1) <= 2 ^ d) by (apply Z.pow_le_mono_r; lia).
      rewrite Z.pow_add_r in Hpow by lia. change (2 ^ 1) with 2 in Hpow.
      lia.
Qed.

Lemma Zdigits2_nonneg (m : Z) : 0 <= Zdigits2 m.
Proof. destruct m; cbn; lia. Qed.

Lemma shr_m_of_loc (m : Z) (l : location) : shr_m (shr_record_of_loc m l) = m.
Proof. destruct l as [|[]]; reflexivity. Qed.

Lemma shr_1_half (x : shr_record) :
  0 <= shr_m x -> shr_m (shr_1 x) = shr_m x / 2.
Proof.
  destruct x as [m r s]. cbn [shr_m]. intros Hm.
  rewrite <- Z.div2_div.
  destruct m as [|[p|p|]|p]; [reflexivity .. | lia].
Qed.

Lemma iter_shr_1 (p : positive) :
  forall x : shr_record,
    0 <= shr_m x -> shr_m (SpecFloat.iter_pos shr_1 p x) = shr_m x / 2 ^ Z.pos p.
Proof.
  induction p as [p IH|p IH|]; intros x Hx; cbn [SpecFloat.iter_pos].
  - assert (H1 : 0 <= shr_m (shr_1 x)).
    { rewrite shr_1_half by exact Hx. apply Z.div_pos; lia. }
    assert (H2 : 0 <= shr_m (SpecFloat.iter_pos shr_1 p (shr_1 x))).
    { rewrite IH by exact H1. apply Z.div_pos; [exact H1 | apply Z.pow_pos_nonneg; lia]. }
    rewrite IH by exact H2. rewrite IH by exact H1. rewrite shr_1_half by exact Hx.
    assert (Hpow : 0 < 2 ^ Z.pos p) by (apply Z.pow_pos_nonneg; lia).
    rewrite !Z.div_div by lia. f_equal.
    rewrite Pos2Z.inj_xI, Z.pow_add_r, Z.pow_mul_r by lia.
    replace (2 ^ 2) with (2 * 2) by reflexivity.
    rewrite Z.pow_mul_l. change (2 ^ 1) with 2. lia.
  - assert (H1 : 0 <= shr_m (SpecFloat.iter_pos shr_1 p x)).
    { rewrite IH by exact Hx. apply Z.div_pos; [exact Hx | apply Z.pow_pos_nonneg; lia]. }
    rewrite IH by exact H1. rewrite IH by exact Hx.
    assert (Hpow : 0 < 2 ^ Z.pos p) by (apply Z.pow_pos_nonneg; lia).
    rewrite Z.div_div by lia. f_equal.
    change (Z.pos p~0) with (2 * Z.pos p). rewrite Z.pow_mul_r by lia.
    replace (2 ^ 2) with (2 * 2) by reflexivity.
    rewrite Z.pow_mul_l. reflexivity.
  - rewrite shr_1_half by exact Hx. reflexivity.
Qed.

Lemma fexp_ge (e : Z) : e - prec <= fexp prec emax e /\ emin prec emax <= fexp prec emax e.
Proof. unfold fexp. lia. Qed.

(** Truncating a natural mantissa to the format: the result fits in 53
    bits, and the exponent moves up to the format's exponent. *)
Lemma shr_fexp_bounds (m e : Z) (l : location) (mrs : shr_record) (e' : Z) :
  0 <= m ->
  shr_fexp prec emax m e l = (mrs, e') ->
  0 <= shr_m mrs < 2 ^ 53 /\
  shr_m mrs <= m /\
  e' = Z.max e (fexp prec emax (Zdigits2 m + e)).
Proof.
  intros Hm. unfold shr_fexp, shr.
  pose proof (fexp_ge (Zdigits2 m + e)) as [Hfexp _].
  pose proof (Zdigits2_nonneg m) as Hd.
  unfold prec in Hfexp at 1.
  destruct (fexp prec emax (Zdigits2 m + e) - e) as [|n|n] eqn:Hn.
  - intros [= <- <-]. rewrite shr_m_of_loc.
    assert (m < 2 ^ 53) by (apply Zdigits2_le; lia). lia.
  - intros [= <- <-].
    assert (Hpow : 0 < 2 ^ Z.pos n) by (apply Z.pow_pos_nonneg; lia).
    rewrite iter_shr_1; rewrite shr_m_of_loc; [|exact Hm].
    repeat split.
    + apply Z.div_pos; lia.
    + apply Z.div_lt_upper_bound; [exact Hpow |].
      rewrite <- Z.pow_add_r by lia. apply Zdigits2_le; lia.
    + apply Z.div_le_upper_bound; [exact Hpow | nia].
    + lia.
  - intros [= <- <-]. rewrite shr_m_of_loc.
    assert (m < 2 ^ 53) by (apply Zdigits2_le; lia). lia.
Qed.

Lemma round_nearest_even_bounds (m : Z) (l : location) :
  m <= round_nearest_even m l <= m + 1.
Proof.
  unfold round_nearest_even. destruct l as [|[]]; try lia.
  destruct (Z.even m); lia.
Qed.

(** Rounding a natural mantissa yields a zero or a finite number of the
    given sign whose exponent exceeds by at most one the exponent of the
    format at the operand; it overflows only beyond that bound. *)
Lemma binary_round_aux_finite (sx : bool) (mx ex : Z) (lx : location) :
  0 <= mx ->
  Z.max ex (fexp prec emax (Zdigits2 mx + ex)) + 1 <= emax - prec ->
  binary_round_aux prec emax sx mx ex lx = S754_zero sx \/
  exists m e,
    binary_round_aux prec emax sx mx ex lx = S754_finite sx m e /\
    Z.pos m < 2 ^ 53 /\
    e <= Z.max ex (fexp prec emax (Zdigits2 mx + ex)) + 1.
Proof.
  intros Hmx Hbound. unfold binary_round_aux.
  destruct (shr_fexp prec emax mx ex lx) as [mrs1 e1] eqn:Hshr1.
  apply shr_fexp_bounds in Hshr1 as (Hm1 & _ & He1); [|exact Hmx].
  pose proof (round_nearest_even_bounds (shr_m mrs1) (loc_of_shr_record mrs1)) as Hr.
  set (m1 := round_nearest_even (shr_m mrs1) (loc_of_shr_record mrs1)) in *.
  destruct (shr_fexp prec emax m1 e1 loc_Exact) as [mrs2 e2] eqn:Hshr2.
  apply shr_fexp_bounds in Hshr2 as (Hm2 & _ & He2); [|lia].
  assert (Hd1 : Zdigits2 m1 <= 54) by (apply Zdigits2_le; lia).
  pose proof (fexp_ge (Zdigits2 mx + ex)) as [_ Hmin].
  assert (He : e2 <= e1 + 1).
  { rewrite He2. unfold fexp, prec in *. lia. }
  destruct (shr_m mrs2) as [|m|m] eqn:Hm; [left; reflexivity | | lia].
  right. exists m, e2.
  destruct (Z.leb_spec e2 (emax - prec)) as [_|Hover]; [|lia].
  split; [reflexivity |]. split; lia.
Qed.

(** Whatever the operand, rounding never changes the sign. *)
Lemma binary_round_aux_sign (sx : bool) (mx ex : Z) (lx : location) :
  match binary_round_aux prec emax sx mx ex lx with
  | S754_zero s | S754_infinity s | S754_finite s _ _ => s = sx
  | S754_nan => True
  end.
Proof.
  unfold binary_round_aux.
  destruct (shr_fexp prec emax mx ex lx) as [mrs1 e1].
  destruct (shr_fexp prec emax _ e1 loc_Exact) as [mrs2 e2].
  destruct (shr_m mrs2); [reflexivity | | exact I].
  destruct (e2 <=? emax - prec); reflexivity.
Qed.

(** The quotient of two positive integers before rounding: a natural
    mantissa with a non-positive exponent, no longer than the dividend. *)
Lemma SFdiv_core_exact (a b : positive) (q e : Z) (l : location) :
  SFdiv_core_binary prec emax (Z.pos a) 0 (Z.pos b) 0 = (q, e, l) ->
  0 <= q /\ e <= 0 /\ Zdigits2 q + e <= Zdigits2 (Z.pos a).
Proof.
  unfold SFdiv_core_binary.
  set (d := Zdigits2 (Z.pos a)).
  set (e0 := Z.min (fexp prec emax (d + 0 - (Zdigits2 (Z.pos b) + 0))) (0 - 0)).
  assert (He0 : e0 <= 0) by (unfold e0; lia).
  assert (Ha : Z.pos a < 2 ^ d).
  { apply Zdigits2_le; [lia | apply Zdigits2_nonneg | unfold d; lia]. }
  assert (Hd : 0 <= d) by apply Zdigits2_nonneg.
  set (m := match 0 - 0 - e0 with
            | 0 => Z.pos a
            | Z.pos _ => Z.shiftl (Z.pos a) (0 - 0 - e0)
            | Z.neg _ => 0
            end).
  assert (Hm : 0 <= m < 2 ^ (d - e0)).
  { unfold m. destruct (0 - 0 - e0) as [|s|s] eqn:Hs; [| |lia].
    - replace (d - e0) with d by lia. lia.
    - rewrite Z.shiftl_mul_pow2 by lia.
      assert (Hpow : 0 < 2 ^ Z.pos s) by (apply Z.pow_pos_nonneg; lia).
      replace (d - e0) with (d + Z.pos s) by lia.
      rewrite Z.pow_add_r by lia. nia. }
  destruct (Z.div_eucl m (Z.pos b)) as [q0 r0] eqn:Hdiv.
  assert (Hq0 : q0 = m / Z.pos b) by (unfold Z.div; rewrite Hdiv; reflexivity).
  intros [= <- <- _].
  assert (Hq : 0 <= q0 <= m).
  { rewrite Hq0. split; [apply Z.div_pos; lia |].
    apply Z.div_le_upper_bound; [lia | nia]. }
  split; [lia |]. split; [exact He0 |].
  assert (Zdigits2 q0 <= d - e0) by (apply Zdigits2_le; lia). lia.
Qed.

Lemma SFdiv_exact_moderate (sa sb : bool) (pa pb : positive) :
  Z.pos pa < 2 ^ 1021 ->
  moderate (SFdiv prec emax (S754_finite sa pa 0) (S754_finite sb pb 0)).
Proof.
  intros Ha. cbn [SFdiv].
  destruct (SFdiv_core_binary prec emax (Z.pos pa) 0 (Z.pos pb) 0)
    as [[mz ez] lz] eqn:Hdiv.
  apply SFdiv_core_exact in Hdiv as (Hmz & Hez & Hdig).
  assert (Hda : Zdigits2 (Z.pos pa) <= 1021) by (apply Zdigits2_le; lia).
  assert (Hbound : Z.max ez (fexp prec emax (Zdigits2 mz + ez)) + 1 <= 969).
  { unfold fexp, emin, prec, emax. lia. }
  destruct (binary_round_aux_finite (xorb sa sb) mz ez lz Hmz)
    as [-> | (m & e & -> & Hm & He)].
  - change (emax - prec) with 971. lia.
  - exact I.
  - cbn. lia.
Qed.

(** Integer division by a non-zero integer returns, as long as the
    dividend is below 2^1021 in absolute value. *)
Lemma int_true_div_moderate (a b : Z) :
  b <> 0 -> Z.abs a < 2 ^ 1021 ->
  exists q, int_true_div a b = Return q /\ moderate q.
Proof.
  intros Hb Ha. unfold int_true_div.
  destruct (Z.eqb_spec b 0) as [?|_]; [contradiction |].
  assert (Hq : moderate (SFdiv prec emax (exact_int a) (exact_int b))).
  { destruct a as [|pa|pa], b as [|pb|pb]; try contradiction;
      try exact I; apply SFdiv_exact_moderate; cbn in Ha; lia. }
  destruct (SFdiv prec emax (exact_int a) (exact_int b)) as [s|s| |s m e];
    try contradiction; eexists; (split; [reflexivity | exact Hq]).
Qed.

Lemma math_log_2_mantissa : Z.pos 0x162E42FEFA39EF < 2 ^ 53.
Proof. reflexivity. Qed.

(** Multiplying a moderate float by [math.log(2)] and rounding the
    product to an integer returns. *)
Lemma round_mul_log_2 (q : spec_float) :
  moderate q -> exists k, round (float_mul q math_log_2) = Return k.
Proof.
  destruct q as [s|s| |s m e]; cbn [moderate]; try contradiction.
  - intros _. exists 0. reflexivity.
  - intros [Hm He]. unfold float_mul, math_log_2. cbn [SFmul].
    pose proof math_log_2_mantissa as Hl.
    assert (Hprod : Z.pos (m * 0x162E42FEFA39EF) < 2 ^ 106).
    { rewrite Pos2Z.inj_mul. change (2 ^ 106) with (2 ^ 53 * 2 ^ 53).
      apply Z.mul_lt_mono_nonneg; lia. }
    assert (Hdig : Zdigits2 (Z.pos (m * 0x162E42FEFA39EF)) <= 106).
    { apply Zdigits2_le; lia. }
    destruct (binary_round_aux_finite (xorb s false)
                (Z.pos (m * 0x162E42FEFA39EF)) (e + -53) loc_Exact)
      as [-> | (m' & e' & -> & _ & _)].
    + lia.
    + change (emax - prec) with 971. unfold fexp, emin, prec, emax. lia.
    + exists 0. reflexivity.
    + eexists. reflexivity.
Qed.

Lemma nearest_even_nonneg (m e : Z) : 0 <= m -> 0 <= nearest_even m e.
Proof.
  intros Hm. unfold nearest_even.
  destruct (Z.leb_spec 0 e) as [He|He].
  - apply Z.mul_nonneg_nonneg; [exact Hm | apply Z.pow_nonneg; lia].
  - assert (Hpow : 0 < 2 ^ (- e)) by (apply Z.pow_pos_nonneg; lia).
    assert (Hq : 0 <= m / 2 ^ (- e)) by (apply Z.div_pos; lia).
    destruct (_ ?= _); [destruct (Z.even _) | |]; lia.
Qed.

(** The sign a float carries, when it carries one that [round] keeps. *)
Lemma SFdiv_exact_sign (a b : Z) (q : spec_float) :
  0 <= a -> 0 < b ->
  SFdiv prec emax (exact_int a) (exact_int b) = q ->
  match q with S754_finite s _ _ => s = false | _ => True end.
Proof.
  intros Ha Hb <-. destruct a as [|pa|pa], b as [|pb|pb]; try lia; try exact I.
  cbn [exact_int SFdiv].
  destruct (SFdiv_core_binary prec emax (Z.pos pa) 0 (Z.pos pb) 0) as [[mz ez] lz].
  pose proof (binary_round_aux_sign (xorb false false) mz ez lz) as Hsign.
  destruct (binary_round_aux _ _ _ _ _ _); try exact I. exact Hsign.
Qed.

End Binary64.

(** ** The number of rounds *)

Section NumberOfRounds.
Import BloomFilter.

Lemma optimal_zero_divisor (size : Z) :
  optimal_number_hash_functions size 0 = Raise ZeroDivisionError.
Proof. reflexivity. Qed.

(** The number of rounds is computed for every non-zero expected number
    of elements, as long as the size is below 2^1021. *)
Lemma optimal_total (size n : Z) :
  n <> 0 -> Z.abs size < 2 ^ 1021 ->
  exists k, optimal_number_hash_functions size n = Return k.
Proof.
  intros Hn Hsize. unfold optimal_number_hash_functions.
  destruct (int_true_div_moderate size n Hn Hsize) as (q & -> & Hq).
  cbn. apply round_mul_log_2. exact Hq.
Qed.

Lemma optimal_Return_divisor (size n k : Z) :
  optimal_number_hash_functions size n = Return k -> n <> 0.
Proof. intros Hk ->. rewrite optimal_zero_divisor in Hk. discriminate. Qed.

(** For a non-negative size and a positive expected number of elements
    the number of rounds is never negative. *)
Lemma optimal_nonneg (size n k : Z) :
  0 <= size -> 0 < n ->
  optimal_number_hash_functions size n = Return k -> 0 <= k.
Proof.
  intros Hsize Hn. unfold optimal_number_hash_functions, int_true_div.
  destruct (Z.eqb_spec n 0) as [?|_]; [lia |].
  pose proof (SFdiv_exact_sign size n _ Hsize Hn eq_refl) as Hsign.
  destruct (SFdiv prec emax (exact_int size) (exact_int n)) as [s|s| |s m e]; cbn.
  - intros [= <-]. lia.
  - discriminate.
  - discriminate.
  - subst s. unfold float_mul, math_log_2. cbn [SFmul].
    pose proof (binary_round_aux_sign (xorb false false)
                  (Z.pos (m * 0x162E42FEFA39EF)) (e + -53) loc_Exact) as Hs.
    destruct (binary_round_aux _ _ _ _ _ _) as [s'|s'| |s' m' e']; cbn;
      try discriminate.
    + intros [= <-]. lia.
    + intros [= <-]. subst s'. cbn. apply nearest_even_nonneg. lia.
Qed.

End NumberOfRounds.

(** ** Properties of the bit array *)

Lemma position_length (a b : list bool) (i : Z) :
  length a = length b -> Bitarray.position a i = Bitarray.position b i.
Proof. intros Hlen. unfold Bitarray.position. rewrite Hlen. reflexivity. Qed.

Lemma position_lt (a : list bool) (i : Z) (p : nat) :
  Bitarray.position a i = Return p -> (p < length a)%nat.
Proof.
  unfold Bitarray.position.
  destruct (_ || _) eqn:Hout; [discriminate |].
  intros [= <-]. apply orb_false_elim in Hout as [Hlo Hhi].
  apply Z.ltb_ge in Hlo. apply Z.leb_gt in Hhi. lia.
Qed.

Lemma position_in_range (a : list bool) (i : Z) :
  0 <= i < Z.of_nat (length a) -> Bitarray.position a i = Return (Z.to_nat i).
Proof.
  intros Hi. unfold Bitarray.position.
  destruct (Z.ltb_spec i 0) as [?|_]; [lia |].
  destruct (Z.ltb_spec i 0) as [?|_]; [lia |].
  destruct (Z.leb_spec (Z.of_nat (length a)) i) as [?|_]; [lia |].
  reflexivity.
Qed.

Lemma setitem_inv (a a' : list bool) (i : Z) (v : bool) :
  Bitarray.setitem a i v = Return a' ->
  exists p, Bitarray.position a i = Return p /\ a' = <[p := v]> a.
Proof.
  unfold Bitarray.setitem. intros Hset.
  apply bind_Return_inv in Hset as (p & Hp & [= <-]).
  exists p. split; [exact Hp | reflexivity].
Qed.

Lemma getitem_set (a : list bool) (i : Z) (p : nat) :
  Bitarray.position a i = Return p -> a !! p = Some true ->
  Bitarray.getitem a i = Return true.
Proof.
  intros Hp Hbit. unfold Bitarray.getitem. rewrite Hp. cbn. rewrite Hbit.
  reflexivity.
Qed.

Lemma new_inv (n : Z) (a : list bool) :
  Bitarray.new n = Return a -> 0 <= n /\ length a = Z.to_nat n.
Proof.
  unfold Bitarray.new. destruct (Z.ltb_spec n 0) as [?|Hn]; [discriminate |].
  intros [= <-]. split; [exact Hn | apply length_replicate].
Qed.

Lemma getitem_replicate_false (n : nat) (i : Z) (b : bool) :
  Bitarray.getitem (replicate n false) i = Return b -> b = false.
Proof.
  unfold Bitarray.getitem. intros Hget.
  apply bind_Return_inv in Hget as (p & _ & Hget).
  destruct (replicate n false !! p) as [c|] eqn:Hc; [|discriminate].
  apply lookup_replicate in Hc as [-> _]. congruence.
Qed.

(** ** Properties of [BloomFilter] *)

Section BloomFilterFacts.
Context {H : Hashlib}.
Import BloomFilter.

Lemma grows_refl (f : t) : grows f f.
Proof. split; auto. Qed.

Lemma grows_trans (f g h : t) : grows f g -> grows g h -> grows f h.
Proof.
  intros [] []. split; try congruence. auto.
Qed.

Lemma grows_with_bits (f : t) (p : nat) :
  grows f (with_bits f (<[p := true]> (bloom_filter f))).
Proof.
  split; cbn; try reflexivity.
  - apply length_insert.
  - intros q Hq. destruct (decide (p = q)) as [->|Hne].
    + rewrite list_lookup_insert_eq; [reflexivity |].
      apply lookup_lt_Some in Hq. exact Hq.
    + rewrite list_lookup_insert_ne by exact Hne. exact Hq.
Qed.

(** A round's index depends on the configuration only, not on the bits. *)
Lemma hash_grows (f g : t) (item : string) (k : Z) :
  grows f g -> _hash g item k = _hash f item k.
Proof.
  intros Hg. unfold _hash, hash_func.
  rewrite (grows_functions _ _ Hg), (grows_size _ _ Hg). reflexivity.
Qed.

Lemma make_hash_functions_inv (names acc fns : list string) :
  make_hash_functions names acc = Return fns ->
  fns = acc ++ names /\ Forall (fun name => name ∈ algorithms_available) names.
Proof.
  revert acc. induction names as [|name names IH]; intros acc; cbn.
  - intros [= <-]. rewrite app_nil_r. split; [reflexivity | constructor].
  - destruct (decide _) as [Hin|Hout]; [|discriminate].
    intros Hrest. apply IH in Hrest as [-> Hall].
    rewrite <- app_assoc. split; [reflexivity |].
    constructor; assumption.
Qed.

Lemma make_hash_functions_supported (names acc : list string) :
  Forall (fun name => name ∈ algorithms_available) names ->
  make_hash_functions names acc = Return (acc ++ names).
Proof.
  intros Hall. revert acc.
  induction Hall as [|name names Hin _ IH]; intros acc; cbn.
  - rewrite app_nil_r. reflexivity.
  - destruct (decide _) as [_|Hout]; [|contradiction].
    rewrite IH, <- app_assoc. reflexivity.
Qed.

Lemma make_hash_functions_unsupported (names acc : list string) :
  ~ Forall (fun name => name ∈ algorithms_available) names ->
  make_hash_functions names acc = Raise ValueError.
Proof.
  revert acc. induction names as [|name names IH]; intros acc Hnot; cbn.
  - exfalso. apply Hnot. constructor.
  - destruct (decide _) as [Hin|Hout]; [|reflexivity].
    apply IH. intros Hall. apply Hnot. constructor; assumption.
Qed.

(** The constructor returns exactly when the array can be allocated,
    the number of rounds can be computed and every name is supported,
    and then the object holds the arguments, an all-zero array and the
    names in order. *)
Lemma init_Return (size n : Z) (names : list string) (self : t) :
  __init__ size n (Some names) = Return self <->
  0 <= size /\
  Forall (fun name => name ∈ algorithms_available) names /\
  exists k, optimal_number_hash_functions size n = Return k /\
    self = {| BloomFilter.size := size;
              number_expected_elements := n;
              bloom_filter := replicate (Z.to_nat size) false;
              number_hash_functions := k;
              hash_functions := names |}.
Proof.
  unfold __init__, Bitarray.new, Bitarray.setall. split.
  - destruct (Z.ltb_spec size 0) as [?|Hsize]; [discriminate |].
    cbn. rewrite length_replicate.
    destruct (optimal_number_hash_functions size n) as [k|e]; [|discriminate].
    cbn. destruct (make_hash_functions names []) as [fns|e] eqn:Hfns; [|discriminate].
    apply make_hash_functions_inv in Hfns as [-> Hall].
    cbn. intros [= <-]. split; [exact Hsize |]. split; [exact Hall |].
    exists k. split; reflexivity.
  - intros (Hsize & Hall & k & Hk & ->).
    destruct (Z.ltb_spec size 0) as [?|_]; [lia |].
    cbn. rewrite length_replicate, Hk. cbn.
    rewrite (make_hash_functions_supported _ _ Hall). reflexivity.
Qed.

End BloomFilterFacts.

(** ** Insertion and lookup over the rounds *)

Section Rounds.
Context {H : Hashlib}.
Import BloomFilter.

Lemma with_bits_same (f : t) : with_bits f (bloom_filter f) = f.
Proof. destruct f. reflexivity. Qed.

(** What one round of [add_to_filter] that does not raise has done. *)
Lemma add_round_inv (f : t) (item : string) (i index : Z) (bits : list bool) :
  _hash f item i = Return index ->
  Bitarray.setitem (bloom_filter f) index true = Return bits ->
  exists p, Bitarray.position (bloom_filter f) index = Return p /\
            bits = <[p := true]> (bloom_filter f) /\
            grows f (with_bits f bits).
Proof.
  intros _ Hset. apply setitem_inv in Hset as (p & Hp & ->).
  exists p. split; [exact Hp |]. split; [reflexivity |].
  apply grows_with_bits.
Qed.

(** Insertion only sets bits: whether it returns or raises, the object
    it leaves has the same configuration and at least the bits it had. *)
Lemma add_rounds_grows (item : string) (rounds : list Z) :
  forall (f g : t) (r : result unit),
    add_rounds f item rounds = (g, r) -> grows f g.
Proof.
  induction rounds as [|i rounds IH]; intros f g r; cbn.
  - intros [= <- _]. apply grows_refl.
  - destruct (_hash f item i) as [index|e] eqn:Hhash.
    + destruct (Bitarray.setitem _ index true) as [bits|e] eqn:Hset.
      * intros Hrest.
        destruct (add_round_inv _ _ _ _ _ Hhash Hset) as (p & _ & _ & Hgrow).
        eapply grows_trans; [exact Hgrow | eapply IH; exact Hrest].
      * intros [= <- _]. apply grows_refl.
    + intros [= <- _]. apply grows_refl.
Qed.

(** Running the same rounds on an object that already holds their bits
    changes nothing and ends the same way. *)
Lemma add_rounds_again (item : string) (rounds : list Z) :
  forall (f f1 : t) (r : result unit),
    add_rounds f item rounds = (f1, r) ->
    forall g : t, grows f1 g -> add_rounds g item rounds = (g, r).
Proof.
  induction rounds as [|i rounds IH]; intros f f1 r; cbn.
  - intros [= _ <-] g _. reflexivity.
  - destruct (_hash f item i) as [index|e] eqn:Hhash.
    + destruct (Bitarray.setitem _ index true) as [bits|e] eqn:Hset.
      * intros Hrest g Hg.
        destruct (add_round_inv _ _ _ _ _ Hhash Hset) as (p & Hp & -> & Hgrow).
        pose proof (add_rounds_grows _ _ _ _ _ Hrest) as Hmid.
        assert (Hfg : grows f g).
        { eapply grows_trans; [exact Hgrow |].
          eapply grows_trans; [exact Hmid | exact Hg]. }
        rewrite (hash_grows _ _ _ _ Hfg), Hhash.
        unfold Bitarray.setitem.
        rewrite (position_length _ (bloom_filter f)) by apply (grows_length _ _ Hfg).
        rewrite Hp. cbn.
        assert (Hbit : bloom_filter g !! p = Some true).
        { apply (grows_bits _ _ Hg), (grows_bits _ _ Hmid). cbn.
          apply list_lookup_insert_eq. eapply position_lt; exact Hp. }
        rewrite (list_insert_id _ _ _ Hbit), with_bits_same.
        eapply IH; [exact Hrest | exact Hg].
      * intros [= <- <-] g Hg.
        rewrite (hash_grows _ _ _ _ Hg), Hhash.
        unfold Bitarray.setitem in *.
        rewrite (position_length _ (bloom_filter f)) by apply (grows_length _ _ Hg).
        destruct (Bitarray.position (bloom_filter f) index); [discriminate |].
        cbn in *. congruence.
    + intros [= <- <-] g Hg.
      rewrite (hash_grows _ _ _ _ Hg), Hhash. reflexivity.
Qed.

(** After the rounds of an item have all been run, a lookup of the item
    over the same rounds finds every bit set, on that object and on any
    that grew from it. *)
Lemma add_rounds_check (item : string) (rounds : list Z) :
  forall f f1 : t,
    add_rounds f item rounds = (f1, Return tt) ->
    forall g : t, grows f1 g -> check_rounds g item rounds = Return false.
Proof.
  induction rounds as [|i rounds IH]; intros f f1; cbn.
  - intros _ g _. reflexivity.
  - destruct (_hash f item i) as [index|e] eqn:Hhash; [|intros [= _ [=]]].
    destruct (Bitarray.setitem _ index true) as [bits|e] eqn:Hset; [|intros [= _ [=]]].
    intros Hrest g Hg.
    destruct (add_round_inv _ _ _ _ _ Hhash Hset) as (p & Hp & -> & Hgrow).
    pose proof (add_rounds_grows _ _ _ _ _ Hrest) as Hmid.
    assert (Hfg : grows f g).
    { eapply grows_trans; [exact Hgrow |].
      eapply grows_trans; [exact Hmid | exact Hg]. }
    rewrite (hash_grows _ _ _ _ Hfg), Hhash. cbn.
    rewrite (getitem_set _ _ p).
    + cbn. eapply IH; [exact Hrest | exact Hg].
    + rewrite (position_length _ (bloom_filter f)) by apply (grows_length _ _ Hfg).
      exact Hp.
    + apply (grows_bits _ _ Hg), (grows_bits _ _ Hmid). cbn.
      apply list_lookup_insert_eq. eapply position_lt; exact Hp.
Qed.

Lemma add_to_filter_grows (f g : t) (item : string) (r : result unit) :
  add_to_filter f item = (g, r) -> grows f g.
Proof. apply add_rounds_grows. Qed.

End Rounds.

(** ** The endpoints *)

Section Endpoints.
Context {H : Hashlib}.
Import BloomFilter App.

Lemma init_bloom_filter_Ok (s s' : state) (c : BloomFilterConfig) :
  init_bloom_filter s c = (s', Ok Initialized) <->
  exists f, s' = Some f /\
    __init__ (App.size c) (App.number_expected_elements c)
      (Some (hash_function_names c)) = Return f.
Proof.
  unfold init_bloom_filter. split.
  - destruct (__init__ _ _ _) as [f|e].
    + intros [= <-]. exists f. split; reflexivity.
    + destruct e; discriminate.
  - intros (f & -> & ->). reflexivity.
Qed.

(** A failed /init leaves the global as it was. *)
Lemma init_bloom_filter_failed (s s' : state) (c : BloomFilterConfig) (a : response) :
  init_bloom_filter s c = (s', a) -> a <> Ok Initialized -> s' = s.
Proof.
  unfold init_bloom_filter.
  destruct (__init__ _ _ _) as [f|e].
  - intros [= _ <-] Hne. contradiction.
  - destruct e; intros [= <- _] _; reflexivity.
Qed.

Lemma handle_keeps_grows (f : BloomFilter.t) (r : request) (s' : state) (a : response) :
  keeps_instance r -> handle (Some f) r = (s', a) ->
  exists g, s' = Some g /\ grows f g.
Proof.
  destruct r as [c|key|key]; cbn; [contradiction | |]; intros _.
  - destruct (add_to_filter f key) as [g [[]|e]] eqn:Hadd;
      intros [= <- _]; exists g;
      (split; [reflexivity | eapply add_to_filter_grows; exact Hadd]).
  - destruct (check_is_not_in_filter f key) as [[|]|e];
      intros [= <- _]; exists f; (split; [reflexivity | apply grows_refl]).
Qed.

Lemma serve_keeps_grows (rs : list request) :
  forall (f : BloomFilter.t) (s' : state) (answers : list response),
    Forall keeps_instance rs -> serve (Some f) rs = (s', answers) ->
    exists g, s' = Some g /\ grows f g.
Proof.
  induction rs as [|r rs IH]; intros f s' answers Hkeep; cbn.
  - intros [= <- _]. exists f. split; [reflexivity | apply grows_refl].
  - inversion Hkeep as [|? ? Hr Hrs]; subst.
    destruct (handle (Some f) r) as [s1 a] eqn:Hhandle.
    destruct (handle_keeps_grows _ _ _ _ Hr Hhandle) as (g & -> & Hfg).
    destruct (serve (Some g) rs) as [s2 answers'] eqn:Hserve.
    intros [= <- _].
    destruct (IH _ _ _ Hrs Hserve) as (h & -> & Hgh).
    exists h. split; [reflexivity | eapply grows_trans; eassumption].
Qed.

Lemma check_grown (f f1 g : BloomFilter.t) (item : string) :
  add_to_filter f item = (f1, Return tt) -> grows f1 g ->
  check_is_not_in_filter g item = Return false.
Proof.
  intros Hadd Hg. unfold check_is_not_in_filter.
  pose proof (add_to_filter_grows _ _ _ _ Hadd) as Hf1.
  rewrite (grows_rounds _ _ Hg), (grows_rounds _ _ Hf1).
  eapply add_rounds_check; [exact Hadd | exact Hg].
Qed.

(** C1. No false negatives: once /add of a key has been answered on the
    current instance, and whatever was added to that instance before or
    is added (or looked up) afterwards, /check of the key answers
    "possibly present": [check_is_not_in_filter] returns [False]. *)
Theorem no_false_negatives (s s1 s2 : state) (key : string)
    (rs : list request) (answers : list response) :
  add_item s key = (s1, Ok (Added key)) ->
  Forall keeps_instance rs ->
  serve s1 rs = (s2, answers) ->
  (exists g, s2 = Some g /\ check_is_not_in_filter g key = Return false) /\
  check_item s2 key = (s2, Ok (PossiblyPresent key)).
Proof.
  intros Hadd Hkeep Hserve.
  destruct s as [f|]; cbn in Hadd; [|discriminate].
  destruct (add_to_filter f key) as [f1 [[]|e]] eqn:Hf1; [|discriminate].
  injection Hadd as <-.
  destruct (serve_keeps_grows _ _ _ _ Hkeep Hserve) as (g & -> & Hg).
  pose proof (check_grown _ _ _ _ Hf1 Hg) as Hcheck.
  split.
  - exists g. split; [reflexivity | exact Hcheck].
  - cbn. rewrite Hcheck. reflexivity.
Qed.

(** C7. Idempotence: adding a key a second time leaves the bit array (and
    the rest of the object) exactly as the first insertion left it, and
    ends the same way. *)
Theorem add_idempotent (f : BloomFilter.t) (key : string) :
  add_to_filter (add_to_filter f key).1 key = add_to_filter f key /\
  bloom_filter (add_to_filter (add_to_filter f key).1 key).1
    = bloom_filter (add_to_filter f key).1 /\
  add_item (add_item (Some f) key).1 key = add_item (Some f) key.
Proof.
  destruct (add_to_filter f key) as [f1 r] eqn:Hadd. cbn [fst].
  assert (Hagain : add_to_filter f1 key = (f1, r)).
  { unfold add_to_filter.
    rewrite (grows_rounds _ _ (add_to_filter_grows _ _ _ _ Hadd)).
    eapply add_rounds_again; [exact Hadd | apply grows_refl]. }
  split; [exact Hagain |]. split.
  - rewrite Hagain. reflexivity.
  - cbn. rewrite Hadd. destruct r as [[]|e]; cbn; rewrite Hagain; reflexivity.
Qed.

End Endpoints.

Section Lifecycle.
Context {H : Hashlib}.
Import BloomFilter App.

Lemma handle_uninitialized (r : request) (s' : state) (a : response) :
  handle initial r = (s', a) -> a <> Ok Initialized ->
  s' = initial /\ (keeps_instance r -> UninitializedError a).
Proof.
  destruct r as [c|key|key]; cbn.
  - intros Hinit Hne. split; [|contradiction].
    eapply init_bloom_filter_failed; eassumption.
  - intros [= <- <-] _. split; [reflexivity | intros _; reflexivity].
  - intros [= <- <-] _. split; [reflexivity | intros _; reflexivity].
Qed.

Lemma serve_uninitialized (rs : list request) :
  forall (s : state) (answers : list response),
    serve initial rs = (s, answers) ->
    Forall (fun a => a <> Ok Initialized) answers ->
    s = initial /\
    Forall2 (fun r a => keeps_instance r -> UninitializedError a) rs answers.
Proof.
  induction rs as [|r rs IH]; intros s answers; cbn.
  - intros [= <- <-] _. split; [reflexivity | constructor].
  - destruct (handle initial r) as [s1 a] eqn:Hhandle.
    destruct (serve s1 rs) as [s2 answers'] eqn:Hserve.
    intros [= <- <-] Hall. inversion Hall as [|? ? Ha Hrest]; subst.
    destruct (handle_uninitialized _ _ _ Hhandle Ha) as [-> Herr].
    destruct (IH _ _ Hserve Hrest) as [-> Hall2].
    split; [reflexivity | constructor; assumption].
Qed.

(** C5. As long as no /init has succeeded, whatever calls were made,
    the global is still unset, every /add and /check made so far was
    answered with the "not initialised" error, and so is the next one,
    which leaves the global unset. *)
Theorem uninitialized_calls_fail (rs : list request) (s : state)
    (answers : list response) (key : string) :
  serve initial rs = (s, answers) ->
  Forall (fun a => a <> Ok Initialized) answers ->
  s = initial /\
  Forall2 (fun r a => keeps_instance r -> UninitializedError a) rs answers /\
  add_item s key = (initial, HTTPException 400 NotInitialized) /\
  check_item s key = (initial, HTTPException 400 NotInitialized) /\
  UninitializedError (add_item s key).2 /\
  UninitializedError (check_item s key).2.
Proof.
  intros Hserve Hnone.
  destruct (serve_uninitialized _ _ _ Hserve Hnone) as [-> Hall].
  repeat split; assumption || reflexivity.
Qed.

End Lifecycle.

Section Hashing.
Context {H : Hashlib}.
Import BloomFilter App.

Lemma hash_func_inv (f : t) (algorithm s : string) (index : Z) :
  hash_func f algorithm s = Return index ->
  exists d, digest algorithm (encode_utf8 s) = Return d /\ d <> [] /\
    0 <= big_endian d 0 /\
    BloomFilter.size f <> 0 /\ index = big_endian d 0 mod BloomFilter.size f.
Proof.
  unfold hash_func. intros Hh.
  apply bind_Return_inv in Hh as (d & Hd & Hh).
  apply bind_Return_inv in Hh as (v & Hv & Hh).
  apply int16_hexlify_nonneg in Hv as (Hne & -> & Hpos).
  apply int_mod_inv in Hh as [Hsize ->].
  exists d. repeat split; assumption.
Qed.

Lemma hash_inv (f : t) (item : string) (k index : Z) :
  _hash f item k = Return index ->
  BloomFilter.size f <> 0 /\
  exists v, 0 <= v /\ index = v mod BloomFilter.size f.
Proof.
  unfold _hash. intros Hh.
  apply bind_Return_inv in Hh as (i & _ & Hh).
  apply bind_Return_inv in Hh as (algorithm & _ & Hh).
  apply hash_func_inv in Hh as (d & _ & _ & Hpos & Hsize & ->).
  split; [exact Hsize |]. exists (big_endian d 0). split; [exact Hpos | reflexivity].
Qed.

(** The text handed to the digest is the bytes of the item followed by
    the decimal digits of the round. *)
Lemma encode_utf8_app (s1 s2 : string) :
  encode_utf8 (s1 +:+ s2) = encode_utf8 s1 ++ encode_utf8 s2.
Proof.
  unfold encode_utf8, String.list_byte_of_string.
  induction s1 as [|c s1 IH]; [reflexivity |].
  cbn [String.app list_ascii_of_string map app]. rewrite <- IH. reflexivity.
Qed.


(** With no hash function configured, the first round already raises:
    the round number is reduced modulo the length of an empty list. *)
Lemma hash_no_functions (f : t) (item : string) (k : Z) :
  hash_functions f = [] -> _hash f item k = Raise ZeroDivisionError.
Proof. intros Hnone. unfold _hash. rewrite Hnone. reflexivity. Qed.

(** Only a missing list is replaced by the default ["md5"]. *)
Lemma init_default_md5 (m n : Z) :
  "md5"%string ∈ algorithms_available ->
  0 <= m -> Bitarray.index_sized m -> n <> 0 ->
  exists self, __init__ m n None = Return self /\ hash_functions self = ["md5"%string].
Proof.
  intros Hmd5 Hm Hindex Hn. unfold Bitarray.index_sized in Hindex.
  destruct (optimal_total m n Hn ltac:(lia)) as [k Hk].
  unfold __init__, Bitarray.new.
  destruct (Z.ltb_spec m 0) as [?|_]; [lia |].
  cbn. rewrite Hk. cbn.
  destruct (decide _) as [_|Hout]; [|contradiction].
  cbn. eexists. split; reflexivity.
Qed.

(** C10. An empty list of names passes the constructor (for an
    index-sized capacity [m >= 0] and a non-zero expected number of
    elements): the loop over
    the names checks nothing, and the list is not replaced by the default.
    The object has no hash function, and when it runs at least one round
    every /add and /check raises [ZeroDivisionError] out of the endpoint,
    which is neither an answer nor the configuration error. *)
Theorem empty_names_zero_division (m n : Z) (item : string) :
  0 <= m -> Bitarray.index_sized m -> n <> 0 ->
  exists self,
    __init__ m n (Some []) = Return self /\
    init_bloom_filter initial
      {| App.size := m; App.number_expected_elements := n;
         App.hash_function_names := [] |} = (Some self, Ok Initialized) /\
    hash_functions self = [] /\
    optimal_number_hash_functions m n = Return (number_hash_functions self) /\
    (1 <= number_hash_functions self ->
     add_to_filter self item = (self, Raise ZeroDivisionError) /\
     check_is_not_in_filter self item = Raise ZeroDivisionError /\
     add_item (Some self) item = (Some self, Uncaught ZeroDivisionError) /\
     check_item (Some self) item = (Some self, Uncaught ZeroDivisionError) /\
     ~ ConfigurationError (add_item (Some self) item).2 /\
     ~ ConfigurationError (check_item (Some self) item).2).
Proof.
  intros Hm Hindex Hn. unfold Bitarray.index_sized in Hindex.
  destruct (optimal_total m n Hn ltac:(lia)) as [k Hk].
  set (self := {| BloomFilter.size := m; BloomFilter.number_expected_elements := n;
                  bloom_filter := replicate (Z.to_nat m) false;
                  number_hash_functions := k; hash_functions := [] |}).
  assert (Hinit : __init__ m n (Some []) = Return self).
  { apply init_Return. split; [lia |]. split; [constructor |].
    exists k. split; [exact Hk | reflexivity]. }
  exists self. split; [exact Hinit |]. split.
  { unfold init_bloom_filter. cbn [App.size App.number_expected_elements
      App.hash_function_names]. rewrite Hinit. reflexivity. }
  split; [reflexivity |]. split; [exact Hk |].
  intros Hk1. cbn [number_hash_functions self] in Hk1.
  assert (Hadd : add_to_filter self item = (self, Raise ZeroDivisionError)).
  { unfold add_to_filter. cbn [number_hash_functions self].
    rewrite range_pos by lia. cbn [add_rounds].
    rewrite hash_no_functions by reflexivity. reflexivity. }
  assert (Hcheck : check_is_not_in_filter self item = Raise ZeroDivisionError).
  { unfold check_is_not_in_filter. cbn [number_hash_functions self].
    rewrite range_pos by lia. cbn [check_rounds].
    rewrite hash_no_functions by reflexivity. reflexivity. }
  split; [exact Hadd |]. split; [exact Hcheck |].
  unfold add_item, check_item. rewrite Hadd, Hcheck.
  repeat split; discriminate.
Qed.

End Hashing.

(** ** Configuration *)

Section Configuration.
Context {H : Hashlib}.
Import BloomFilter App.

Lemma init_negative_size (size n : Z) (names : option (list string)) :
  size < 0 -> __init__ size n names = Raise ValueError.
Proof.
  intros Hsize. unfold __init__, Bitarray.new.
  destruct (Z.ltb_spec size 0) as [_|?]; [reflexivity | lia].
Qed.

Lemma init_zero_expected (size : Z) (names : option (list string)) :
  0 <= size -> __init__ size 0 names = Raise ZeroDivisionError.
Proof.
  intros Hsize. unfold __init__, Bitarray.new.
  destruct (Z.ltb_spec size 0) as [?|_]; [lia | reflexivity].
Qed.

Lemma init_unsupported (size n k : Z) (names : list string) :
  0 <= size ->
  optimal_number_hash_functions size n = Return k ->
  ~ Forall (fun name => name ∈ algorithms_available) names ->
  __init__ size n (Some names) = Raise ValueError.
Proof.
  intros Hsize Hk Hnames. unfold __init__, Bitarray.new.
  destruct (Z.ltb_spec size 0) as [?|_]; [lia |].
  cbn. rewrite Hk. cbn.
  rewrite (make_hash_functions_unsupported _ _ Hnames). reflexivity.
Qed.

Lemma init_supported (size n k : Z) (names : list string) :
  0 <= size ->
  optimal_number_hash_functions size n = Return k ->
  Forall (fun name => name ∈ algorithms_available) names ->
  __init__ size n (Some names)
  = Return {| BloomFilter.size := size;
              BloomFilter.number_expected_elements := n;
              bloom_filter := replicate (Z.to_nat size) false;
              number_hash_functions := k;
              hash_functions := names |}.
Proof.
  intros Hsize Hk Hsup. apply init_Return.
  split; [exact Hsize |]. split; [exact Hsup |].
  exists k. split; [exact Hk | reflexivity].
Qed.

(** What the constructor has stored when it returns, with or without a
    list of names. *)
Lemma init_fields (size n : Z) (names : option (list string)) (self : t) :
  __init__ size n names = Return self ->
  0 <= size /\
  BloomFilter.size self = size /\
  bloom_filter self = replicate (Z.to_nat size) false /\
  optimal_number_hash_functions size n = Return (number_hash_functions self).
Proof.
  unfold __init__, Bitarray.new, Bitarray.setall.
  destruct (Z.ltb_spec size 0) as [?|Hsize]; [discriminate |].
  cbn. rewrite length_replicate.
  destruct (optimal_number_hash_functions size n) as [k|e]; [|discriminate].
  cbn. destruct (make_hash_functions _ []) as [fns|e]; [|discriminate].
  cbn. intros [= <-]. cbn. repeat split; [exact Hsize].
Qed.

(** C2, as the code has it. When the constructor returns for a capacity
    [m > 0] and an expected number of elements [n > 0], the number of
    rounds it stores is [round((m / n) * ln 2)], computed on floats, and
    is not negative. (It is 0 for a small enough ratio: there is no
    minimum of 1.) *)
Theorem rounds_formula_nonneg (m n : Z) (names : option (list string)) (self : t) :
  __init__ m n names = Return self ->
  0 < m -> 0 < n ->
  optimal_number_hash_functions m n = Return (number_hash_functions self) /\
  (q ← int_true_div m n; round (float_mul q math_log_2))
    = Return (number_hash_functions self) /\
  0 <= number_hash_functions self.
Proof.
  intros Hinit Hm Hn.
  apply init_fields in Hinit as (_ & _ & _ & Hk).
  split; [exact Hk |]. split; [exact Hk |].
  eapply optimal_nonneg; [| exact Hn | exact Hk]. lia.
Qed.

(** C9. With ["sha256"] available, /init with capacity 1000, 100
    expected elements and the algorithm ["sha256"] succeeds, and the
    instance runs [round((1000 / 100) * ln 2) = 7] rounds. *)
Theorem rounds_example_1000_100 (s : state) :
  "sha256"%string ∈ algorithms_available ->
  optimal_number_hash_functions 1000 100 = Return 7 /\
  exists f,
    init_bloom_filter s
      {| App.size := 1000; App.number_expected_elements := 100;
         App.hash_function_names := ["sha256"%string] |}
    = (Some f, Ok Initialized) /\
    number_hash_functions f = 7.
Proof.
  intros Hsha.
  assert (Hk : optimal_number_hash_functions 1000 100 = Return 7)
    by (vm_compute; reflexivity).
  split; [exact Hk |].
  exists {| BloomFilter.size := 1000;
            BloomFilter.number_expected_elements := 100;
            bloom_filter := replicate 1000 false;
            number_hash_functions := 7;
            hash_functions := ["sha256"%string] |}.
  split; [|reflexivity].
  apply init_bloom_filter_Ok. eexists. split; [reflexivity |].
  cbn [App.size App.number_expected_elements App.hash_function_names].
  apply init_Return. split; [lia |]. split.
  - constructor; [exact Hsha | constructor].
  - exists 7. split; [exact Hk | reflexivity].
Qed.

(** C3, as the code has it. For an index-sized capacity, /init has
    exactly three outcomes. It answers with the 400 configuration error
    exactly when the capacity is negative, or the expected number of
    elements is not zero and some name is not supported. It lets
    [ZeroDivisionError] through exactly when the capacity is not
    negative and the expected number of elements is zero. Otherwise it
    succeeds: a capacity of zero and a negative expected number of
    elements are accepted. Whenever it does not succeed the global is
    unchanged, so that after a failure with no instance in place /add
    answers "not initialised". *)
Theorem init_outcomes (s s' : state) (c : BloomFilterConfig) (a : response)
    (key : string) :
  Bitarray.index_sized (App.size c) ->
  init_bloom_filter s c = (s', a) ->
  let supported :=
    Forall (fun name => name ∈ algorithms_available) (hash_function_names c) in
  (ConfigurationError a <->
     App.size c < 0 \/ (App.number_expected_elements c <> 0 /\ ~ supported)) /\
  (a = Uncaught ZeroDivisionError <->
     0 <= App.size c /\ App.number_expected_elements c = 0) /\
  (a = Ok Initialized <->
     0 <= App.size c /\ App.number_expected_elements c <> 0 /\ supported) /\
  (a <> Ok Initialized ->
     s' = s /\ (s = initial -> UninitializedError (add_item s' key).2)).
Proof.
  intros Hbound Hinit supported. unfold Bitarray.index_sized in Hbound.
  assert (Hkeep : a <> Ok Initialized ->
            s' = s /\ (s = initial -> UninitializedError (add_item s' key).2)).
  { intros Hne.
    rewrite (init_bloom_filter_failed _ _ _ _ Hinit Hne).
    split; [reflexivity | intros ->; reflexivity]. }
  unfold ConfigurationError.
  revert Hinit Hkeep. unfold init_bloom_filter.
  destruct c as [size n names]. cbn [App.size App.number_expected_elements
    App.hash_function_names] in *.
  destruct (Z.lt_ge_cases size 0) as [Hneg|Hsize].
  { rewrite init_negative_size by exact Hneg. intros [= <- <-] Hkeep.
    settle_outcome Hkeep. }
  destruct (decide (n = 0)) as [->|Hn].
  { rewrite init_zero_expected by exact Hsize. intros [= <- <-] Hkeep.
    settle_outcome Hkeep. }
  destruct (optimal_total size n Hn ltac:(lia)) as [k Hk].
  destruct (decide supported) as [Hsup|Hunsup].
  - rewrite (init_supported size n k names Hsize Hk Hsup).
    intros [= <- <-] Hkeep.
    settle_outcome Hkeep.
  - rewrite (init_unsupported size n k names Hsize Hk Hunsup).
    intros [= <- <-] Hkeep.
    settle_outcome Hkeep.
Qed.

End Configuration.

(** ** Replacement *)

Section Replacement.
Context {H : Hashlib}.
Import BloomFilter App.

(** A lookup on an instance whose bits are all zero. *)
Lemma check_all_zero (f : t) (key : string) :
  0 <= BloomFilter.size f ->
  bloom_filter f = replicate (Z.to_nat (BloomFilter.size f)) false ->
  (number_hash_functions f <= 0 ->
     check_is_not_in_filter f key = Return false) /\
  (1 <= number_hash_functions f ->
     forall index, _hash f key 0 = Return index ->
     check_is_not_in_filter f key = Return true) /\
  (1 <= number_hash_functions f ->
     forall e, _hash f key 0 = Raise e ->
     check_is_not_in_filter f key = Raise e).
Proof.
  intros Hsize Hbits. unfold check_is_not_in_filter. repeat split.
  - intros Hk. rewrite range_nonpos by exact Hk. reflexivity.
  - intros Hk index Hhash. rewrite range_pos by lia. cbn [check_rounds].
    rewrite Hhash. cbn.
    apply hash_inv in Hhash as (Hne & v & _ & ->).
    assert (Hidx : 0 <= v mod BloomFilter.size f < BloomFilter.size f)
      by (apply Z.mod_pos_bound; lia).
    unfold Bitarray.getitem. rewrite Hbits at 1.
    rewrite position_in_range by (rewrite length_replicate; lia).
    cbn. rewrite Hbits, lookup_replicate_2 by lia. reflexivity.
  - intros Hk e Hhash. rewrite range_pos by lia. cbn [check_rounds].
    rewrite Hhash. reflexivity.
Qed.

(** C6, as the code has it. After /init, /add of a key and a second
    successful /init, the global holds a new instance whose bits are all
    zero, whatever the first instance held. /check of the key on it
    answers "definitely absent" when the instance runs at least one
    round and the hash of the first round returns; it answers "possibly
    present" when the instance runs no round. *)
Theorem replacement_discards_bits (s s1 s2 s3 : state) (c1 c2 : BloomFilterConfig)
    (key : string) (a2 : response) :
  init_bloom_filter s c1 = (s1, Ok Initialized) ->
  add_item s1 key = (s2, a2) ->
  init_bloom_filter s2 c2 = (s3, Ok Initialized) ->
  exists f,
    s3 = Some f /\
    bloom_filter f = replicate (Z.to_nat (App.size c2)) false /\
    (1 <= number_hash_functions f ->
       forall index, _hash f key 0 = Return index ->
       check_item s3 key = (s3, Ok (DefinitelyAbsent key))) /\
    (number_hash_functions f <= 0 ->
       check_item s3 key = (s3, Ok (PossiblyPresent key))).
Proof.
  intros _ _ Hinit.
  apply init_bloom_filter_Ok in Hinit as (f & -> & Hf).
  apply init_fields in Hf as (Hsize & Hfsize & Hbits & _).
  exists f. split; [reflexivity |]. split; [exact Hbits |].
  destruct (check_all_zero f key) as (Hzero & Hsome & _).
  { rewrite Hfsize. exact Hsize. }
  { rewrite Hfsize. exact Hbits. }
  split.
  - intros Hk index Hhash. cbn. rewrite (Hsome Hk index Hhash). reflexivity.
  - intros Hk. cbn. rewrite (Hzero Hk). reflexivity.
Qed.

End Replacement.

(** ** The exact effect of an insertion *)

Section Effect.
Context {H : Hashlib}.
Import BloomFilter.

Lemma plan_grows (item : string) (rounds : list Z) (f g : t) :
  grows f g -> plan g item rounds = plan f item rounds.
Proof.
  intros Hg. induction rounds as [|i rounds IH]; [reflexivity |].
  cbn [plan]. rewrite (hash_grows _ _ _ _ Hg).
  destruct (_hash f item i) as [index|e]; [|reflexivity].
  rewrite (position_length _ (bloom_filter f)) by apply (grows_length _ _ Hg).
  destruct (Bitarray.position _ index); [|reflexivity].
  rewrite IH. reflexivity.
Qed.

Lemma with_bits_with_bits (f : t) (a b : list bool) :
  with_bits (with_bits f a) b = with_bits f b.
Proof. reflexivity. Qed.

(** The loop of [add_to_filter] does what its plan says. *)
Lemma add_rounds_plan (item : string) (rounds : list Z) :
  forall f : t,
    add_rounds f item rounds
    = (with_bits f (set_all (plan f item rounds).1 (bloom_filter f)),
       (plan f item rounds).2).
Proof.
  induction rounds as [|i rounds IH]; intros f; cbn [add_rounds plan].
  - cbn. rewrite with_bits_same. reflexivity.
  - destruct (_hash f item i) as [index|e]; [|cbn; rewrite with_bits_same; reflexivity].
    unfold Bitarray.setitem.
    destruct (Bitarray.position (bloom_filter f) index) as [p|e];
      [|cbn; rewrite with_bits_same; reflexivity].
    cbn [mbind result_bind Py.bind fst snd].
    rewrite IH, with_bits_with_bits.
    rewrite (plan_grows item rounds f _ (grows_with_bits f p)).
    reflexivity.
Qed.

Lemma plan_positions (item : string) (rounds : list Z) (f : t) (p : nat) :
  p ∈ (plan f item rounds).1 ->
  exists i index,
    i ∈ rounds /\ _hash f item i = Return index /\
    Bitarray.position (bloom_filter f) index = Return p.
Proof.
  induction rounds as [|i rounds IH]; cbn [plan].
  - cbn. intros Hp. apply elem_of_nil in Hp. contradiction.
  - destruct (_hash f item i) as [index|e] eqn:Hhash;
      [|cbn; intros Hp; apply elem_of_nil in Hp; contradiction].
    destruct (Bitarray.position (bloom_filter f) index) as [q|e] eqn:Hpos;
      [|cbn; intros Hp; apply elem_of_nil in Hp; contradiction].
    cbn [fst]. intros Hp. apply elem_of_cons in Hp as [->|Hp].
    + exists i, index. split; [apply list_elem_of_here |]. split; assumption.
    + destruct (IH Hp) as (j & idx & Hj & Hh & Hq).
      exists j, idx. split; [apply list_elem_of_further; exact Hj |].
      split; assumption.
Qed.

Lemma plan_length (item : string) (rounds : list Z) (f : t) :
  (length (plan f item rounds).1 <= length rounds)%nat.
Proof.
  induction rounds as [|i rounds IH]; cbn [plan]; [cbn; lia |].
  destruct (_hash f item i); [|cbn; lia].
  destruct (Bitarray.position _ _); cbn; lia.
Qed.

Lemma set_all_length (ps : list nat) (bits : list bool) :
  length (set_all ps bits) = length bits.
Proof.
  revert bits. induction ps as [|p ps IH]; intros bits; [reflexivity |].
  unfold set_all in *. cbn [foldl]. rewrite IH. apply length_insert.
Qed.

(** A bit after [set_all]: set when its position is listed (and exists),
    as before otherwise. *)
Lemma set_all_lookup (ps : list nat) (bits : list bool) (q : nat) :
  set_all ps bits !! q
  = if decide (q ∈ ps /\ (q < length bits)%nat) then Some true else bits !! q.
Proof.
  revert bits. induction ps as [|p ps IH]; intros bits.
  - cbn. destruct (decide _) as [[Hin _]|_]; [|reflexivity].
    apply elem_of_nil in Hin. contradiction.
  - unfold set_all in *. cbn [foldl]. rewrite IH, length_insert.
    destruct (decide (q ∈ ps /\ (q < length bits)%nat)) as [[Hin Hlt]|Hno].
    + destruct (decide _) as [_|Hno]; [reflexivity |].
      exfalso. apply Hno. split; [apply list_elem_of_further; exact Hin | exact Hlt].
    + destruct (decide (p = q)) as [->|Hne].
      * destruct (decide (q < length bits)%nat) as [Hlt|Hge].
        -- rewrite list_lookup_insert_eq by exact Hlt.
           destruct (decide _) as [_|Hno']; [reflexivity |].
           exfalso. apply Hno'. split; [apply list_elem_of_here | exact Hlt].
        -- rewrite list_insert_ge by lia.
           destruct (decide _) as [[_ Hlt]|_]; [lia | reflexivity].
      * rewrite list_lookup_insert_ne by exact Hne.
        destruct (decide _) as [[Hin Hlt]|_]; [|reflexivity].
        exfalso. apply Hno. apply elem_of_cons in Hin as [->|Hin]; [congruence |].
        split; assumption.
Qed.

Lemma set_all_commute (ps qs : list nat) (bits : list bool) :
  set_all ps (set_all qs bits) = set_all qs (set_all ps bits).
Proof.
  apply list_eq. intros q. rewrite !set_all_lookup, !set_all_length.
  destruct (decide (q ∈ ps /\ _)), (decide (q ∈ qs /\ _)); reflexivity.
Qed.

Lemma count_true_insert (bits : list bool) (p : nat) :
  (count_true bits <= count_true (<[p := true]> bits) <= S (count_true bits))%nat.
Proof.
  revert p. induction bits as [|b bits IH]; intros p;
    [destruct p; simpl; lia |].
  destruct p as [|p]; simpl.
  - destruct b; lia.
  - specialize (IH p). destruct b; lia.
Qed.

Lemma count_true_set_all (ps : list nat) (bits : list bool) :
  (count_true bits <= count_true (set_all ps bits) <= count_true bits + length ps)%nat.
Proof.
  revert bits. induction ps as [|p ps IH]; intros bits; [cbn; lia |].
  unfold set_all in *. cbn [foldl length].
  specialize (IH (<[p := true]> bits)).
  pose proof (count_true_insert bits p). lia.
Qed.

Lemma length_range (n : Z) : length (range n) = Z.to_nat n.
Proof. unfold range. rewrite length_map, length_seq. reflexivity. Qed.

(** X1. An insertion changes only bits of the key's own rounds, and only
    from 0 to 1: a bit that differs after [add_to_filter], whether the
    call returned or raised, is now 1 and is the bit that the hash of one
    of the rounds designates. *)
Theorem add_changes_only_round_bits (f f' : t) (key : string) (r : result unit)
    (q : nat) :
  add_to_filter f key = (f', r) ->
  bloom_filter f' !! q <> bloom_filter f !! q ->
  bloom_filter f !! q = Some false /\
  bloom_filter f' !! q = Some true /\
  exists i index,
    0 <= i < number_hash_functions f /\
    _hash f key i = Return index /\
    Bitarray.position (bloom_filter f) index = Return q.
Proof.
  unfold add_to_filter. rewrite add_rounds_plan. intros [= <- _]. cbn [bloom_filter with_bits].
  rewrite set_all_lookup.
  destruct (decide _) as [[Hin Hlt]|_]; [|intros Hne; contradiction Hne; reflexivity].
  intros Hne.
  destruct (lookup_lt_is_Some_2 _ _ Hlt) as [b Hb].
  destruct b; [rewrite Hb in Hne; contradiction Hne; reflexivity |].
  split; [exact Hb |]. split; [reflexivity |].
  destruct (plan_positions _ _ _ _ Hin) as (i & index & Hi & Hhash & Hpos).
  exists i, index. split; [apply elem_of_range; exact Hi |]. split; assumption.
Qed.

(** X2. Insertions commute: adding two keys in either order leaves the
    same object, bit for bit, and each insertion ends the same way
    (returns or raises the same exception) in both orders. *)
Theorem add_commutes (f : t) (x y : string) :
  (add_to_filter (add_to_filter f x).1 y).1
    = (add_to_filter (add_to_filter f y).1 x).1 /\
  (add_to_filter (add_to_filter f y).1 x).2 = (add_to_filter f x).2 /\
  (add_to_filter (add_to_filter f x).1 y).2 = (add_to_filter f y).2.
Proof.
  assert (Hstep : forall a b : string,
    add_to_filter (add_to_filter f a).1 b
    = (with_bits f
         (set_all (plan f b (range (number_hash_functions f))).1
            (set_all (plan f a (range (number_hash_functions f))).1 (bloom_filter f))),
       (plan f b (range (number_hash_functions f))).2)).
  { intros a b.
    destruct (add_to_filter f a) as [fa ra] eqn:Ha. cbn [fst].
    pose proof (add_to_filter_grows _ _ _ _ Ha) as Hg.
    unfold add_to_filter in *. rewrite add_rounds_plan in Ha. injection Ha as <- _.
    rewrite add_rounds_plan. cbn [number_hash_functions bloom_filter with_bits].
    rewrite with_bits_with_bits.
    rewrite (plan_grows b _ f _ Hg). reflexivity. }
  rewrite (Hstep x y), (Hstep y x). cbn [fst snd].
  split; [rewrite set_all_commute; reflexivity |].
  unfold add_to_filter. rewrite !add_rounds_plan. split; reflexivity.
Qed.

(** X3. An insertion never clears a bit and sets at most one bit per
    round: the number of bits set grows by at most
    [number_hash_functions] (by nothing when that number is not
    positive), and the length of the array does not change. *)
Theorem add_sets_at_most_rounds_bits (f : t) (key : string) :
  length (bloom_filter (add_to_filter f key).1) = length (bloom_filter f) /\
  (count_true (bloom_filter f)
   <= count_true (bloom_filter (add_to_filter f key).1)
   <= count_true (bloom_filter f) + Z.to_nat (number_hash_functions f))%nat.
Proof.
  unfold add_to_filter. rewrite add_rounds_plan.
  cbn [fst bloom_filter with_bits]. split; [apply set_all_length |].
  pose proof (count_true_set_all (plan f key (range (number_hash_functions f))).1
                (bloom_filter f)) as Hcount.
  pose proof (plan_length key (range (number_hash_functions f)) f) as Hlen.
  rewrite length_range in Hlen. lia.
Qed.

End Effect.

(** ** Two runs of the service *)

Section Determinism.
Context {H : Hashlib}.
Import BloomFilter App.

(** A run in which no /init succeeds comes down to its /add calls: the
    object it leaves, and the answers its /add calls were given, are
    those of the /add calls made alone. A /check and a failed /init
    change nothing. *)
Lemma serve_added (rs : list request) :
  forall (f : BloomFilter.t) (u : state) (answers : list response),
    serve (Some f) rs = (u, answers) ->
    Forall (fun a => a <> Ok Initialized) answers ->
    u = Some (foldl (fun g key => (add_to_filter g key).1) f (added rs)) /\
    add_answers rs answers = (serve (Some f) (Add <$> added rs)).2.
Proof.
  induction rs as [|r rs IH]; intros f u answers; cbn [serve].
  - intros [= <- <-] _. split; reflexivity.
  - destruct (handle (Some f) r) as [s1 a] eqn:Hhandle.
    destruct (serve s1 rs) as [s2 answers'] eqn:Hserve.
    intros [= <- <-] Hall. inversion Hall as [|? ? Ha Hrest]; subst.
    destruct r as [c|key|key]; cbn [handle] in Hhandle.
    + rewrite (init_bloom_filter_failed _ _ _ _ Hhandle Ha) in Hserve.
      cbn [added add_answers]. exact (IH _ _ _ Hserve Hrest).
    + cbn [added add_answers foldl].
      change (Add <$> key :: added rs) with (Add key :: (Add <$> added rs)).
      cbn [serve handle]. rewrite Hhandle.
      assert (Hs1 : s1 = Some (add_to_filter f key).1).
      { unfold add_item in Hhandle.
        destruct (add_to_filter f key) as [f1 [[]|e]];
          injection Hhandle as <- _; reflexivity. }
      rewrite Hs1 in *.
      destruct (IH _ _ _ Hserve Hrest) as [-> Hanswers].
      split; [reflexivity |].
      rewrite Hanswers.
      destruct (serve (Some (add_to_filter f key).1) (Add <$> added rs))
        as [s3 answers3].
      reflexivity.
    + assert (Hs1 : s1 = Some f).
      { unfold check_item in Hhandle.
        destruct (check_is_not_in_filter f key) as [[|]|e];
          injection Hhandle as <- _; reflexivity. }
      rewrite Hs1 in Hserve. cbn [added add_answers]. exact (IH _ _ _ Hserve Hrest).
Qed.

(** After keys have been added one after the other, a bit that is set
    was set before or is the bit of a round of one of the keys. *)
Lemma added_bits (keys : list string) :
  forall (f : BloomFilter.t) (q : nat),
    bloom_filter (foldl (fun g k => (add_to_filter g k).1) f keys) !! q = Some true ->
    bloom_filter f !! q = Some true \/
    exists k i index,
      k ∈ keys /\
      0 <= i < number_hash_functions f /\
      _hash f k i = Return index /\
      Bitarray.position (bloom_filter f) index = Return q.
Proof.
  induction keys as [|key keys IH]; intros f q; cbn [foldl]; [left; assumption |].
  intros Hbit.
  destruct (add_to_filter f key) as [f1 r1] eqn:Hadd. cbn [fst] in Hbit.
  pose proof (add_to_filter_grows _ _ _ _ Hadd) as Hg.
  destruct (IH _ _ Hbit) as [Hset | (k & i & index & Hk & Hi & Hhash & Hpos)].
  - unfold add_to_filter in Hadd. rewrite add_rounds_plan in Hadd.
    injection Hadd as <- _. cbn [bloom_filter with_bits] in Hset.
    rewrite set_all_lookup in Hset.
    destruct (decide _) as [[Hin _]|_]; [|left; exact Hset].
    right. destruct (plan_positions _ _ _ _ Hin) as (i & index & Hi & Hhash & Hpos).
    exists key, i, index. split; [apply list_elem_of_here |].
    split; [apply elem_of_range; exact Hi |]. split; assumption.
  - right. exists k, i, index. split; [apply list_elem_of_further; exact Hk |].
    rewrite <- (grows_rounds _ _ Hg). split; [exact Hi |].
    rewrite <- (hash_grows _ _ _ _ Hg). split; [exact Hhash |].
    rewrite <- (position_length (bloom_filter f1)) by apply (grows_length _ _ Hg).
    exact Hpos.
Qed.

(** C8. Determinism: the storage depends on the configuration and on the
    keys added, in order, and on nothing else. Take two services that were
    given the same configuration, whatever their globals held before, and
    then the same sequence of /add calls, possibly mixed with different
    /check calls and failed /init calls. They hold the same object, bit
    for bit: the one that [add_to_filter] builds from the all-zero array
    of the constructor over the keys added, in which a bit is set only
    if the hash of a round of an added key designates it. Their /add
    calls were given the same answers, and they answer every /check
    alike. *)
Theorem deterministic (s s' t t' u u' : state) (c : BloomFilterConfig)
    (rs rs' : list request) (answers answers' : list response) (key : string) :
  init_bloom_filter s c = (t, Ok Initialized) ->
  init_bloom_filter s' c = (t', Ok Initialized) ->
  serve t rs = (u, answers) ->
  serve t' rs' = (u', answers') ->
  Forall (fun a => a <> Ok Initialized) answers ->
  Forall (fun a => a <> Ok Initialized) answers' ->
  added rs = added rs' ->
  t = t' /\
  u = u' /\
  (bloom_filter <$> u) = (bloom_filter <$> u') /\
  add_answers rs answers = add_answers rs' answers' /\
  check_item u key = check_item u' key /\
  exists f0,
    t = Some f0 /\
    bloom_filter f0 = replicate (Z.to_nat (App.size c)) false /\
    u = Some (foldl (fun g k => (add_to_filter g k).1) f0 (added rs)) /\
    (forall g q,
       u = Some g -> bloom_filter g !! q = Some true ->
       exists k i index,
         k ∈ added rs /\
         0 <= i < number_hash_functions f0 /\
         _hash f0 k i = Return index /\
         Bitarray.position (bloom_filter f0) index = Return q).
Proof.
  intros Ht Ht' Hserve Hserve' Hnone Hnone' Hkeys.
  apply init_bloom_filter_Ok in Ht as (f & -> & Hf).
  apply init_bloom_filter_Ok in Ht' as (f' & -> & Hf').
  assert (f' = f) as -> by congruence.
  destruct (serve_added _ _ _ _ Hserve Hnone) as [Hu Hanswers].
  destruct (serve_added _ _ _ _ Hserve' Hnone') as [Hu' Hanswers'].
  rewrite <- Hkeys in Hu', Hanswers'.
  assert (Huu : u = u') by congruence.
  split; [reflexivity |]. split; [exact Huu |].
  split; [rewrite Huu; reflexivity |].
  split; [congruence |].
  split; [rewrite Huu; reflexivity |].
  assert (Hzero : bloom_filter f = replicate (Z.to_nat (App.size c)) false).
  { apply init_Return in Hf as (_ & _ & k & _ & ->). reflexivity. }
  exists f. split; [reflexivity |]. split; [exact Hzero |]. split; [exact Hu |].
  intros g q Hg Hbit. rewrite Hu in Hg. injection Hg as <-.
  destruct (added_bits _ _ _ Hbit) as [Hset | Hround]; [|exact Hround].
  rewrite Hzero in Hset. apply lookup_replicate in Hset as [[=] _].
Qed.

End Determinism.

(** ** Instances the endpoints can hold *)

Section Reachable.
Context {H : Hashlib}.
Import BloomFilter App.

Lemma init_well_formed (size n : Z) (names : option (list string)) (f : t) :
  __init__ size n names = Return f -> well_formed f.
Proof.
  intros Hinit. apply init_fields in Hinit as (Hsize & Hfsize & Hbits & _).
  unfold well_formed. rewrite Hfsize, Hbits, length_replicate.
  split; [exact Hsize | reflexivity].
Qed.

Lemma grows_well_formed (f g : t) : grows f g -> well_formed f -> well_formed g.
Proof.
  intros Hg [Hsize Hlen]. unfold well_formed.
  rewrite (grows_size _ _ Hg), (grows_length _ _ Hg).
  split; assumption.
Qed.

Lemma handle_well_formed (s s' : state) (r : request) (a : response) :
  handle s r = (s', a) ->
  (forall f, s = Some f -> well_formed f) ->
  forall f', s' = Some f' -> well_formed f'.
Proof.
  intros Hhandle Hs f' ->.
  destruct r as [c|key|key]; cbn in Hhandle.
  - unfold init_bloom_filter in Hhandle.
    destruct (__init__ _ _ _) as [f|e] eqn:Hinit.
    + injection Hhandle as <- _. eapply init_well_formed; exact Hinit.
    + destruct e; injection Hhandle as -> _; apply Hs; reflexivity.
  - destruct s as [f|]; [|discriminate].
    destruct (handle_keeps_grows f (Add key) (Some f') a I Hhandle) as (g & [= <-] & Hg).
    eapply grows_well_formed; [exact Hg | apply Hs; reflexivity].
  - destruct s as [f|]; [|discriminate].
    destruct (handle_keeps_grows f (Check key) (Some f') a I Hhandle) as (g & [= <-] & Hg).
    eapply grows_well_formed; [exact Hg | apply Hs; reflexivity].
Qed.

(** Whatever calls were served since the start, the instance in place, if
    any, has an array of the length it was configured with. *)
Lemma serve_well_formed (rs : list request) :
  forall (s s' : state) (answers : list response),
    serve s rs = (s', answers) ->
    (forall f, s = Some f -> well_formed f) ->
    forall f', s' = Some f' -> well_formed f'.
Proof.
  induction rs as [|r rs IH]; intros s s' answers; cbn.
  - intros [= <- _] Hs. exact Hs.
  - destruct (handle s r) as [s1 a] eqn:Hhandle.
    destruct (serve s1 rs) as [s2 answers'] eqn:Hserve.
    intros [= <- _] Hs.
    eapply IH; [exact Hserve |].
    eapply handle_well_formed; eassumption.
Qed.

(** On a well-formed instance every index a hash returns designates a
    bit: the position is the index itself. *)
Lemma hash_position (f : t) (item : string) (i index : Z) :
  well_formed f ->
  _hash f item i = Return index ->
  0 <= index < BloomFilter.size f /\
  Bitarray.position (bloom_filter f) index = Return (Z.to_nat index) /\
  exists b, bloom_filter f !! Z.to_nat index = Some b.
Proof.
  intros [Hsize Hlen] Hhash.
  apply hash_inv in Hhash as (Hne & v & _ & ->).
  assert (Hidx : 0 <= v mod BloomFilter.size f < BloomFilter.size f)
    by (apply Z.mod_pos_bound; lia).
  split; [exact Hidx |]. split.
  - apply position_in_range. rewrite Hlen. lia.
  - apply lookup_lt_is_Some_2. rewrite Hlen. lia.
Qed.

Lemma plan_raises (f : t) (item : string) (rounds : list Z) (e : exn) :
  well_formed f ->
  (plan f item rounds).2 = Raise e ->
  exists i, i ∈ rounds /\ _hash f item i = Raise e.
Proof.
  intros Hwf. induction rounds as [|i rounds IH]; cbn [plan]; [discriminate |].
  destruct (_hash f item i) as [index|e'] eqn:Hhash.
  - destruct (hash_position _ _ _ _ Hwf Hhash) as (_ & -> & _). cbn [snd].
    intros Hrest. destruct (IH Hrest) as (j & Hj & Hraise).
    exists j. split; [apply list_elem_of_further; exact Hj | exact Hraise].
  - cbn. intros [= ->]. exists i. split; [apply list_elem_of_here | exact Hhash].
Qed.

Lemma check_rounds_raises (f : t) (item : string) (rounds : list Z) (e : exn) :
  well_formed f ->
  check_rounds f item rounds = Raise e ->
  exists i, i ∈ rounds /\ _hash f item i = Raise e.
Proof.
  intros Hwf. induction rounds as [|i rounds IH]; cbn [check_rounds]; [discriminate |].
  destruct (_hash f item i) as [index|e'] eqn:Hhash.
  - destruct (hash_position _ _ _ _ Hwf Hhash) as (_ & Hpos & b & Hb).
    cbn. unfold Bitarray.getitem. rewrite Hpos. cbn. rewrite Hb. cbn.
    destruct b; cbn; [|discriminate].
    intros Hrest. destruct (IH Hrest) as (j & Hj & Hraise).
    exists j. split; [apply list_elem_of_further; exact Hj | exact Hraise].
  - cbn. intros [= ->]. exists i. split; [apply list_elem_of_here | exact Hhash].
Qed.

(** X4. The bit array is never accessed out of range. On the instance in
    place after any sequence of calls since the start, an exception that
    leaves /add or /check is one that the hash of one of the rounds
    raised (the digest, or the reduction modulo an empty list of
    functions); the accesses to the array raise nothing. *)
Theorem errors_come_from_hashing (rs : list request) (s s' : state)
    (answers : list response) (key : string) (e : exn) :
  serve initial rs = (s, answers) ->
  add_item s key = (s', Uncaught e) \/ check_item s key = (s', Uncaught e) ->
  exists f i,
    s = Some f /\
    0 <= i < number_hash_functions f /\
    _hash f key i = Raise e.
Proof.
  intros Hserve Hcall.
  destruct s as [f|]; [|destruct Hcall as [Hc|Hc]; discriminate].
  assert (Hwf : well_formed f).
  { eapply serve_well_formed; [exact Hserve | discriminate | reflexivity]. }
  assert (Hround : exists i, i ∈ range (number_hash_functions f) /\ _hash f key i = Raise e).
  { destruct Hcall as [Hadd|Hcheck].
    - cbn in Hadd. unfold add_to_filter in Hadd. rewrite add_rounds_plan in Hadd.
      destruct (plan f key (range (number_hash_functions f))).2 as [[]|e'] eqn:Hplan;
        [discriminate |].
      injection Hadd as _ ->. eapply plan_raises; eassumption.
    - cbn in Hcheck. unfold check_is_not_in_filter in Hcheck.
      destruct (check_rounds f key _) as [[|]|e'] eqn:Hrounds; try discriminate.
      injection Hcheck as _ ->. eapply check_rounds_raises; eassumption. }
  destruct Hround as (i & Hi & Hraise).
  exists f, i. split; [reflexivity |]. split; [apply elem_of_range; exact Hi | exact Hraise].
Qed.

(** With no capacity the constructor computes no round. *)
Lemma optimal_zero_size (n k : Z) :
  optimal_number_hash_functions 0 n = Return k -> k = 0.
Proof.
  unfold optimal_number_hash_functions, int_true_div.
  destruct (n =? 0); [discriminate |].
  destruct n as [|pn|pn]; cbn; intros [= <-]; reflexivity.
Qed.

Lemma str_not_empty (k : Z) : str k <> EmptyString.
Proof.
  intros Hempty. pose proof (str_reads_back k) as Hback.
  rewrite Hempty in Hback. discriminate.
Qed.

Lemma encode_utf8_salted (item : string) (k : Z) :
  encode_utf8 (item +:+ str k) <> [].
Proof.
  rewrite encode_utf8_app. intros Hnil.
  apply app_eq_nil in Hnil as [_ Hnil].
  pose proof (str_not_empty k) as Hstr.
  destruct (str k); [contradiction | discriminate].
Qed.

(** When the digests answer, the hash of every round returns, on an
    instance with at least one function and a positive size. *)
Lemma hash_returns (f : t) (item : string) (i : Z) :
  hash_functions f <> [] -> 0 < BloomFilter.size f ->
  digests_answer (hash_functions f) -> 0 <= i ->
  exists index, _hash f item i = Return index.
Proof.
  intros Hnames Hsize Hdigests Hi. unfold _hash, hash_func.
  assert (Hlen : 0 < Z.of_nat (length (hash_functions f))).
  { destruct (hash_functions f); [contradiction | cbn; lia]. }
  rewrite int_mod_Return by lia. cbn.
  destruct (list_getitem_lookup (hash_functions f) _
              (Z.mod_pos_bound i _ Hlen)) as (algorithm & Hlookup & ->).
  cbn.
  destruct (Hdigests algorithm (encode_utf8 (item +:+ str i)))
    as (d & Hd & ->).
  { eapply list_elem_of_lookup_2. exact Hlookup. }
  { apply encode_utf8_salted. }
  cbn. rewrite int16_hexlify by exact Hd. cbn.
  rewrite int_mod_Return by lia. eexists. reflexivity.
Qed.

End Reachable.

(** ** What a lookup answers *)

Section Lookup.
Context {H : Hashlib}.
Import BloomFilter App.

(** The loop of [check_is_not_in_filter] returns [False] exactly when
    every round finds its bit set. *)
Lemma check_rounds_false_iff (f : t) (item : string) (rounds : list Z) :
  check_rounds f item rounds = Return false <->
  forall i, i ∈ rounds ->
    exists index, _hash f item i = Return index /\
                  Bitarray.getitem (bloom_filter f) index = Return true.
Proof.
  induction rounds as [|i rounds IH]; cbn [check_rounds].
  - split; [|reflexivity]. intros _ i Hi. apply elem_of_nil in Hi. contradiction.
  - split.
    + intros Hcheck.
      apply bind_Return_inv in Hcheck as (index & Hhash & Hcheck).
      apply bind_Return_inv in Hcheck as (b & Hbit & Hcheck).
      destruct b; cbn in Hcheck; [|discriminate].
      intros j Hj. apply elem_of_cons in Hj as [->|Hj].
      * exists index. split; assumption.
      * apply IH; assumption.
    + intros Hall.
      destruct (Hall i (list_elem_of_here _ _)) as (index & -> & Hbit).
      cbn. rewrite Hbit. cbn. apply IH.
      intros j Hj. apply Hall. apply list_elem_of_further. exact Hj.
Qed.

(** When it returns [True], some round found its bit clear. *)
Lemma check_rounds_true_inv (f : t) (item : string) (rounds : list Z) :
  check_rounds f item rounds = Return true ->
  exists i index, i ∈ rounds /\ _hash f item i = Return index /\
                  Bitarray.getitem (bloom_filter f) index = Return false.
Proof.
  induction rounds as [|i rounds IH]; cbn [check_rounds]; [discriminate |].
  intros Hcheck.
  apply bind_Return_inv in Hcheck as (index & Hhash & Hcheck).
  apply bind_Return_inv in Hcheck as (b & Hbit & Hcheck).
  destruct b; cbn in Hcheck.
  - destruct (IH Hcheck) as (j & idx & Hj & Hh & Hb).
    exists j, idx. split; [apply list_elem_of_further; exact Hj |]. split; assumption.
  - exists i, index. split; [apply list_elem_of_here |]. split; assumption.
Qed.

(** X5. A lookup answers "possibly present" ([False]) exactly when the
    hash of every round returns and designates a bit that is set, and
    when it answers "definitely absent" ([True]) the bit of some round is
    clear. *)
Theorem check_reads_the_round_bits (f : t) (key : string) :
  (check_is_not_in_filter f key = Return false <->
   forall i, 0 <= i < number_hash_functions f ->
     exists index, _hash f key i = Return index /\
                   Bitarray.getitem (bloom_filter f) index = Return true) /\
  (check_is_not_in_filter f key = Return true ->
   exists i index,
     0 <= i < number_hash_functions f /\
     _hash f key i = Return index /\
     Bitarray.getitem (bloom_filter f) index = Return false).
Proof.
  unfold check_is_not_in_filter. split.
  - rewrite check_rounds_false_iff. split.
    + intros Hall i Hi. apply Hall, elem_of_range. exact Hi.
    + intros Hall i Hi. apply Hall, elem_of_range. exact Hi.
  - intros Hcheck.
    destruct (check_rounds_true_inv _ _ _ Hcheck) as (i & index & Hi & Hhash & Hbit).
    exists i, index. split; [apply elem_of_range; exact Hi |]. split; assumption.
Qed.

Lemma getitem_inv (a : list bool) (i : Z) (b : bool) :
  Bitarray.getitem a i = Return b ->
  exists p, Bitarray.position a i = Return p /\ a !! p = Some b.
Proof.
  unfold Bitarray.getitem. intros Hget.
  apply bind_Return_inv in Hget as (p & Hp & Hget).
  exists p. split; [exact Hp |].
  destruct (a !! p) as [c|]; [|discriminate]. congruence.
Qed.

(** X6. A false positive needs a collision. If a key [y] is reported
    "definitely absent" and, after some key [x] is added, is reported
    "possibly present", then some round of [x] and some round of [y] hash
    to the same bit of the array. *)
Theorem false_positive_needs_collision (f : t) (x y : string) :
  check_is_not_in_filter f y = Return true ->
  check_is_not_in_filter (add_to_filter f x).1 y = Return false ->
  exists i j index index' p,
    0 <= i < number_hash_functions f /\
    0 <= j < number_hash_functions f /\
    _hash f y i = Return index /\
    _hash f x j = Return index' /\
    Bitarray.position (bloom_filter f) index = Return p /\
    Bitarray.position (bloom_filter f) index' = Return p.
Proof.
  intros Hbefore Hafter.
  destruct (add_to_filter f x) as [f' r] eqn:Hadd. cbn [fst] in Hafter.
  pose proof (add_to_filter_grows _ _ _ _ Hadd) as Hg.
  unfold check_is_not_in_filter in *.
  rewrite (grows_rounds _ _ Hg) in Hafter.
  destruct (check_rounds_true_inv _ _ _ Hbefore) as (i & index & Hi & Hhash & Hclear).
  pose proof (proj1 (check_rounds_false_iff _ _ _) Hafter i Hi) as (index2 & Hhash2 & Hset).
  rewrite (hash_grows _ _ _ _ Hg), Hhash in Hhash2. injection Hhash2 as <-.
  apply getitem_inv in Hclear as (p & Hp & Hbit).
  apply getitem_inv in Hset as (p' & Hp' & Hbit').
  rewrite (position_length _ (bloom_filter f)) in Hp' by apply (grows_length _ _ Hg).
  assert (p' = p) as -> by congruence.
  unfold add_to_filter in Hadd. rewrite add_rounds_plan in Hadd. injection Hadd as <- _.
  cbn [bloom_filter with_bits] in Hbit'. rewrite set_all_lookup in Hbit'.
  destruct (decide _) as [[Hin _]|_]; [|congruence].
  destruct (plan_positions _ _ _ _ Hin) as (j & index' & Hj & Hhashx & Hposx).
  exists i, j, index, index', p.
  split; [apply elem_of_range; exact Hi |].
  split; [apply elem_of_range; exact Hj |].
  repeat split; assumption.
Qed.

End Lookup.

(** ** Sequences of calls *)

Section Calls.
Context {H : Hashlib}.
Import BloomFilter App.

(** X7. No sequence of /add and /check calls clears a bit, resizes the
    array or changes the configuration of the instance in place: only
    /init replaces it. *)
Theorem calls_only_set_bits (f : BloomFilter.t) (rs : list request) (s' : state)
    (answers : list response) :
  Forall keeps_instance rs ->
  serve (Some f) rs = (s', answers) ->
  exists g,
    s' = Some g /\
    BloomFilter.size g = BloomFilter.size f /\
    number_hash_functions g = number_hash_functions f /\
    hash_functions g = hash_functions f /\
    length (bloom_filter g) = length (bloom_filter f) /\
    (forall p, bloom_filter f !! p = Some true -> bloom_filter g !! p = Some true) /\
    (count_true (bloom_filter f) <= count_true (bloom_filter g))%nat.
Proof.
  intros Hkeep Hserve.
  destruct (serve_keeps_grows _ _ _ _ Hkeep Hserve) as (g & -> & Hg).
  exists g. split; [reflexivity |].
  split; [apply (grows_size _ _ Hg) |].
  split; [apply (grows_rounds _ _ Hg) |].
  split; [apply (grows_functions _ _ Hg) |].
  split; [apply (grows_length _ _ Hg) |].
  split; [apply (grows_bits _ _ Hg) |].
  pose proof (grows_length _ _ Hg) as Hlen.
  pose proof (grows_bits _ _ Hg) as Hbits.
  clear Hg Hserve. revert Hlen Hbits.
  generalize (bloom_filter g) as b, (bloom_filter f) as a.
  intros b a. revert b. induction a as [|x a IH]; intros b Hlen Hbits; [cbn; lia |].
  destruct b as [|y b]; [discriminate |]. cbn.
  assert (Hrest : (count_true a <= count_true b)%nat).
  { apply IH; [cbn in Hlen; lia |]. intros p Hp. apply (Hbits (S p)). exact Hp. }
  destruct x; [|lia].
  specialize (Hbits 0%nat eq_refl). cbn in Hbits. injection Hbits as ->. lia.
Qed.

Lemma plan_returns (f : t) (item : string) (rounds : list Z) :
  well_formed f ->
  (forall i, i ∈ rounds -> exists index, _hash f item i = Return index) ->
  (plan f item rounds).2 = Return tt.
Proof.
  intros Hwf. induction rounds as [|i rounds IH]; intros Hall; [reflexivity |].
  cbn [plan].
  destruct (Hall i (list_elem_of_here _ _)) as (index & Hhash). rewrite Hhash.
  destruct (hash_position _ _ _ _ Hwf Hhash) as (_ & -> & _). cbn [snd].
  apply IH. intros j Hj. apply Hall. apply list_elem_of_further. exact Hj.
Qed.

Lemma check_rounds_returns (f : t) (item : string) (rounds : list Z) :
  well_formed f ->
  (forall i, i ∈ rounds -> exists index, _hash f item i = Return index) ->
  exists b, check_rounds f item rounds = Return b.
Proof.
  intros Hwf. induction rounds as [|i rounds IH]; intros Hall; [exists false; reflexivity |].
  cbn [check_rounds].
  destruct (Hall i (list_elem_of_here _ _)) as (index & Hhash). rewrite Hhash.
  destruct (hash_position _ _ _ _ Hwf Hhash) as (_ & Hpos & b & Hb).
  cbn. unfold Bitarray.getitem. rewrite Hpos. cbn. rewrite Hb. cbn.
  destruct b; cbn; [|exists true; reflexivity].
  apply IH. intros j Hj. apply Hall. apply list_elem_of_further. exact Hj.
Qed.

(** An instance on which every call answers: well formed, and the hash
    of every round of every key returns. *)
Lemma handle_answers (g : BloomFilter.t) (r : request) (s' : state) (a : response) :
  well_formed g ->
  (forall key i, 0 <= i < number_hash_functions g ->
     exists index, _hash g key i = Return index) ->
  keeps_instance r ->
  handle (Some g) r = (s', a) -> answered a.
Proof.
  intros Hwf Hhash Hr. destruct r as [c|key|key]; [contradiction | |]; cbn.
  - unfold add_to_filter. rewrite add_rounds_plan.
    rewrite (plan_returns g key _ Hwf).
    + intros [= _ <-]. exact I.
    + intros i Hi. apply Hhash, elem_of_range. exact Hi.
  - unfold check_is_not_in_filter.
    destruct (check_rounds_returns g key (range (number_hash_functions g)) Hwf)
      as [b ->].
    + intros i Hi. apply Hhash, elem_of_range. exact Hi.
    + destruct b; intros [= _ <-]; exact I.
Qed.

(** A call whose key can be encoded is not an /init. *)
Lemma encodable_keeps (r : request) : encodable r -> keeps_instance r.
Proof. destruct r; [intros [] | intros _; exact I | intros _; exact I]. Qed.

(** X8. With at least one algorithm configured and digests that answer,
    a service that was initialised does not fail on keys that UTF-8 can
    encode: every /add and /check of such a key made on the instance, in
    any number and order, is answered with a body. (A key that holds a
    lone surrogate is outside the statement: [s.encode('utf-8')] raises
    on it.) *)
Theorem working_digests_always_answer (s s1 s2 : state) (c : BloomFilterConfig)
    (rs : list request) (answers : list response) :
  init_bloom_filter s c = (s1, Ok Initialized) ->
  hash_function_names c <> [] ->
  digests_answer (hash_function_names c) ->
  Forall encodable rs ->
  serve s1 rs = (s2, answers) ->
  Forall answered answers.
Proof.
  intros Hinit Hnames Hdigests Hcode Hserve.
  assert (Hkeep : Forall keeps_instance rs)
    by (eapply Forall_impl; [exact Hcode | exact encodable_keeps]).
  clear Hcode.
  apply init_bloom_filter_Ok in Hinit as (f & -> & Hf).
  pose proof (init_well_formed _ _ _ _ Hf) as Hwf.
  assert (Hlive : forall g, grows f g ->
            forall key i, 0 <= i < number_hash_functions g ->
              exists index, _hash g key i = Return index).
  { intros g Hg key i Hi. rewrite (hash_grows _ _ _ _ Hg).
    rewrite (grows_rounds _ _ Hg) in Hi.
    pose proof Hf as Hfields. apply init_fields in Hfields as (Hsize & Hfsize & _ & Hk).
    apply init_Return in Hf as (_ & _ & k & _ & Hfv).
    assert (Hfns : hash_functions f = hash_function_names c) by (rewrite Hfv; reflexivity).
    destruct (decide (App.size c = 0)) as [Hzero|Hpos].
    - rewrite Hzero in Hk. apply optimal_zero_size in Hk. lia.
    - apply hash_returns; [rewrite Hfns; exact Hnames | lia
                           | rewrite Hfns; exact Hdigests | lia]. }
  clear Hf. revert Hserve Hkeep.
  assert (Hgen : forall g, grows f g -> forall s2 answers,
            Forall keeps_instance rs -> serve (Some g) rs = (s2, answers) ->
            Forall answered answers).
  { clear s2 answers. induction rs as [|r rs IH]; intros g Hg s2 answers Hkeep; cbn.
    - intros [= _ <-]. constructor.
    - inversion Hkeep as [|? ? Hr Hrs]; subst.
      destruct (handle (Some g) r) as [s1 a] eqn:Hhandle.
      destruct (serve s1 rs) as [s3 answers'] eqn:Hserve.
      intros [= _ <-].
      destruct (handle_keeps_grows _ _ _ _ Hr Hhandle) as (g' & -> & Hgg').
      constructor.
      + eapply handle_answers; [| | exact Hr | exact Hhandle].
        * eapply grows_well_formed; eassumption.
        * apply Hlive. exact Hg.
      + eapply IH; [| exact Hrs | exact Hserve].
        eapply grows_trans; eassumption. }
  intros Hserve Hkeep. eapply Hgen; [apply grows_refl | exact Hkeep | exact Hserve].
Qed.

End Calls.

(** ** How many rounds an instance runs *)

Section RoundsBounds.
Context {H : Hashlib}.
Import BloomFilter App.

Lemma Zdigits2_lower (m : Z) : 0 < m -> 1 <= Zdigits2 m /\ 2 ^ (Zdigits2 m - 1) <= m.
Proof.
  intros Hm.
  pose proof (Zdigits2_nonneg m) as Hd.
  assert (H1 : 1 <= Zdigits2 m).
  { destruct (Z.le_gt_cases 1 (Zdigits2 m)) as [?|Hlt]; [assumption |].
    assert (Hz : Zdigits2 m <= 0) by lia.
    apply Zdigits2_le in Hz; [|lia|lia]. change (2 ^ 0) with 1 in Hz. lia. }
  split; [exact H1 |].
  destruct (Z.le_gt_cases (2 ^ (Zdigits2 m - 1)) m) as [?|Hlt]; [assumption |].
  apply Zdigits2_le in Hlt; lia.
Qed.

Lemma shr_fexp_ge (m e c t : Z) (l : location) (mrs : shr_record) (e' : Z) :
  0 <= m -> 0 < c < 2 ^ 53 -> emin prec emax <= t -> -200 <= e -> -200 <= t ->
  c * 2 ^ (t + 200) <= m * 2 ^ (e + 200) ->
  shr_fexp prec emax m e l = (mrs, e') ->
  c * 2 ^ (t + 200) <= shr_m mrs * 2 ^ (e' + 200) /\ e <= e'.
Proof.
  intros Hm Hc Ht He Ht' Hval. unfold shr_fexp, shr.
  destruct (fexp prec emax (Zdigits2 m + e) - e) as [|n|n] eqn:Hn.
  - intros [= <- <-]. rewrite shr_m_of_loc. split; [exact Hval | lia].
  - intros [= <- <-]. rewrite iter_shr_1; rewrite shr_m_of_loc; [|exact Hm].
    split; [|lia].
    assert (Hpn : 0 < 2 ^ Z.pos n) by (apply Z.pow_pos_nonneg; lia).
    assert (Hpe : 0 < 2 ^ (e + 200)) by (apply Z.pow_pos_nonneg; lia).
    assert (Hsplit : 2 ^ (e + Z.pos n + 200) = 2 ^ Z.pos n * 2 ^ (e + 200)).
    { rewrite <- Z.pow_add_r by lia. f_equal. lia. }
    destruct (Z.le_gt_cases (e + Z.pos n) t) as [Hle|Hgt].
    + assert (Hpt : 0 < 2 ^ (t - e - Z.pos n)) by (apply Z.pow_pos_nonneg; lia).
      assert (Ht2 : 2 ^ (t + 200) = 2 ^ (t - e - Z.pos n) * (2 ^ Z.pos n * 2 ^ (e + 200))).
      { rewrite <- !Z.pow_add_r by lia. f_equal. lia. }
      assert (Hq : c * 2 ^ (t - e - Z.pos n) <= m / 2 ^ Z.pos n).
      { apply Z.div_le_lower_bound; [exact Hpn |].
        rewrite Ht2 in Hval. nia. }
      rewrite Ht2, Hsplit. nia.
    + assert (Hmpos : 0 < m).
      { destruct (Z.eq_dec m 0) as [->|]; [|lia]. cbn in Hn. 
        unfold fexp, emin, prec, emax in *. lia. }
      destruct (Zdigits2_lower m Hmpos) as [Hd1 Hlow].
      assert (HN : Z.pos n = Zdigits2 m - 53).
      { unfold fexp, emin, prec, emax in *. lia. }
      assert (Hq : 2 ^ 52 <= m / 2 ^ Z.pos n).
      { apply Z.div_le_lower_bound; [exact Hpn |].
        rewrite <- Z.pow_add_r by lia.
        replace (Z.pos n + 52) with (Zdigits2 m - 1) by lia. exact Hlow. }
      assert (Hmono : 2 ^ (t + 201) <= 2 ^ (e + Z.pos n + 200)).
      { apply Z.pow_le_mono_r; lia. }
      assert (Ht1 : 2 ^ (t + 201) = 2 * 2 ^ (t + 200)).
      { replace (t + 201) with (1 + (t + 200)) by lia.
        rewrite Z.pow_add_r by lia. reflexivity. }
      assert (Hpt : 0 < 2 ^ (t + 200)) by (apply Z.pow_pos_nonneg; lia).
      assert (H53 : 2 ^ 53 = 2 * 2 ^ 52) by reflexivity.
      nia.
  - intros [= <- <-]. rewrite shr_m_of_loc. split; [exact Hval | lia].
Qed.

Lemma binary_round_aux_ge (sx : bool) (mx ex c t : Z) (lx : location) :
  0 <= mx -> 0 < c < 2 ^ 53 -> emin prec emax <= t -> -200 <= ex -> -200 <= t ->
  c * 2 ^ (t + 200) <= mx * 2 ^ (ex + 200) ->
  match binary_round_aux prec emax sx mx ex lx with
  | S754_finite s m e =>
      s = sx /\ ex <= e /\ c * 2 ^ (t + 200) <= Z.pos m * 2 ^ (e + 200)
  | S754_infinity _ => True
  | _ => False
  end.
Proof.
  intros Hmx Hc Ht Hex Ht' Hval. unfold binary_round_aux.
  destruct (shr_fexp prec emax mx ex lx) as [mrs1 e1] eqn:Hshr1.
  pose proof (shr_fexp_bounds _ _ _ _ _ Hmx Hshr1) as (Hm1 & _ & _).
  pose proof (shr_fexp_ge _ _ _ _ _ _ _ Hmx Hc Ht Hex Ht' Hval Hshr1) as (Hv1 & He1).
  pose proof (round_nearest_even_bounds (shr_m mrs1) (loc_of_shr_record mrs1)) as Hr.
  set (m1 := round_nearest_even (shr_m mrs1) (loc_of_shr_record mrs1)) in *.
  destruct (shr_fexp prec emax m1 e1 loc_Exact) as [mrs2 e2] eqn:Hshr2.
  assert (Hm1' : 0 <= m1) by lia.
  assert (Hp1 : 0 < 2 ^ (e1 + 200)) by (apply Z.pow_pos_nonneg; lia).
  assert (Hv1' : c * 2 ^ (t + 200) <= m1 * 2 ^ (e1 + 200)) by nia.
  pose proof (shr_fexp_bounds _ _ _ _ _ Hm1' Hshr2) as (Hm2 & _ & _).
  assert (He1' : -200 <= e1) by lia.
  pose proof (shr_fexp_ge _ _ _ _ _ _ _ Hm1' Hc Ht He1' Ht' Hv1' Hshr2) as (Hv2 & He2).
  assert (Hpt : 0 < 2 ^ (t + 200)) by (apply Z.pow_pos_nonneg; lia).
  destruct (shr_m mrs2) as [|m|m] eqn:Hm; [nia | | lia].
  destruct (e2 <=? emax - prec); [|exact I].
  split; [reflexivity |]. split; [lia | exact Hv2].
Qed.

Lemma SFdiv_core_ge_one (a b : positive) (q e : Z) (l : location) :
  (b <= a)%positive ->
  SFdiv_core_binary prec emax (Z.pos a) 0 (Z.pos b) 0 = (q, e, l) ->
  0 <= q /\ -53 <= e <= 0 /\ 2 ^ 200 <= q * 2 ^ (e + 200).
Proof.
  intros Hba. unfold SFdiv_core_binary.
  assert (Hd : Zdigits2 (Z.pos b) <= Zdigits2 (Z.pos a)).
  { apply Zdigits2_le; [lia | apply Zdigits2_nonneg |].
    assert (Z.pos a < 2 ^ Zdigits2 (Z.pos a)).
    { apply Zdigits2_le; [lia | apply Zdigits2_nonneg | lia]. }
    lia. }
  set (e0 := Z.min (fexp prec emax (Zdigits2 (Z.pos a) + 0 - (Zdigits2 (Z.pos b) + 0))) (0 - 0)).
  assert (He0 : -53 <= e0 <= 0).
  { unfold e0, fexp, emin, prec, emax. lia. }
  set (m := match 0 - 0 - e0 with
            | 0 => Z.pos a
            | Z.pos _ => Z.shiftl (Z.pos a) (0 - 0 - e0)
            | Z.neg _ => 0
            end).
  assert (Hpow : 0 < 2 ^ (- e0)) by (apply Z.pow_pos_nonneg; lia).
  assert (Hm : m = Z.pos a * 2 ^ (- e0)).
  { unfold m. destruct (0 - 0 - e0) as [|s|s] eqn:Hs; [| |lia].
    - replace (- e0) with 0 by lia. lia.
    - rewrite Z.shiftl_mul_pow2 by lia. f_equal. f_equal. lia. }
  destruct (Z.div_eucl m (Z.pos b)) as [q0 r0] eqn:Hdiv.
  assert (Hq0 : q0 = m / Z.pos b) by (unfold Z.div; rewrite Hdiv; reflexivity).
  intros [= <- <- _].
  assert (Hq : 2 ^ (- e0) <= q0).
  { rewrite Hq0. apply Z.div_le_lower_bound; [lia |]. rewrite Hm. nia. }
  split; [lia |]. split; [exact He0 |].
  assert (Hsplit : 2 ^ 200 = 2 ^ (- e0) * 2 ^ (e0 + 200)).
  { rewrite <- Z.pow_add_r by lia. f_equal. lia. }
  assert (Hp2 : 0 < 2 ^ (e0 + 200)) by (apply Z.pow_pos_nonneg; lia).
  rewrite Hsplit. nia.
Qed.

Lemma nearest_even_ge_one (m e : Z) :
  -200 <= e -> 2 ^ 199 < m * 2 ^ (e + 200) -> 1 <= nearest_even m e.
Proof.
  intros He Hval. unfold nearest_even.
  assert (Hpe : 0 < 2 ^ (e + 200)) by (apply Z.pow_pos_nonneg; lia).
  assert (Hm : 0 < m) by nia.
  destruct (Z.leb_spec 0 e) as [Hpos|Hneg].
  - assert (0 < 2 ^ e) by (apply Z.pow_pos_nonneg; lia). nia.
  - set (d := 2 ^ (- e)).
    assert (Hd : 0 < d) by (apply Z.pow_pos_nonneg; lia).
    assert (Hsplit : 2 ^ 200 = d * 2 ^ (e + 200)).
    { unfold d. rewrite <- Z.pow_add_r by lia. f_equal. lia. }
    assert (H200 : 2 ^ 200 = 2 * 2 ^ 199) by reflexivity.
    assert (H2m : d < 2 * m) by nia.
    pose proof (Z.div_mod m d ltac:(lia)) as Hdm.
    pose proof (Z.mod_pos_bound m d Hd) as Hr.
    assert (Hq : 0 <= m / d) by (apply Z.div_pos; lia).
    destruct (Z.eq_dec (m / d) 0) as [Hz|Hnz].
    + rewrite Hz in *. 
      assert (Hrm : m mod d = m) by lia. rewrite Hrm.
      destruct (Z.compare_spec (2 * m) d); lia.
    + destruct (_ ?= _); [destruct (Z.even _) | |]; lia.
Qed.

Lemma optimal_at_least_one (m n k : Z) :
  0 < n <= m -> optimal_number_hash_functions m n = Return k -> 1 <= k.
Proof.
  intros Hmn. unfold optimal_number_hash_functions, int_true_div.
  destruct (Z.eqb_spec n 0) as [?|_]; [lia |].
  destruct m as [|pa|pa], n as [|pb|pb]; try lia.
  cbn [exact_int SFdiv].
  destruct (SFdiv_core_binary prec emax (Z.pos pa) 0 (Z.pos pb) 0) as [[q0 e0] l0] eqn:Hcore.
  apply SFdiv_core_ge_one in Hcore as (Hq0 & He0 & Hv0); [|lia].
  pose proof (binary_round_aux_ge (xorb false false) q0 e0 1 0 l0 Hq0
                ltac:(lia) ltac:(unfold emin, prec, emax; lia) ltac:(lia) ltac:(lia)) as Hq.
  change (0 + 200) with 200 in Hq. rewrite Z.mul_1_l in Hq. specialize (Hq Hv0).
  destruct (binary_round_aux prec emax (xorb false false) q0 e0 l0) as [s|s| |s mq eq];
    try contradiction; [discriminate |].
  destruct Hq as (-> & Heq & Hvq). cbn.
  unfold float_mul, math_log_2. cbn [SFmul].
  assert (Hp147 : 0 < 2 ^ (eq + 147)) by (apply Z.pow_pos_nonneg; lia).
  assert (Hsplit : 2 ^ (eq + 200) = 2 ^ (eq + 147) * 2 ^ 53).
  { rewrite <- Z.pow_add_r by lia. f_equal. lia. }
  assert (H200 : 2 ^ 200 = 2 ^ 147 * 2 ^ 53) by reflexivity.
  assert (Hvq' : 2 ^ 147 <= Z.pos mq * 2 ^ (eq + 147)) by nia.
  pose proof (binary_round_aux_ge false
                (Z.pos (mq * 0x162E42FEFA39EF)) (eq + -53) (Z.pos 0x162E42FEFA39EF) (-53)
                loc_Exact ltac:(lia) ltac:(split; [lia | reflexivity])
                ltac:(unfold emin, prec, emax; lia) ltac:(lia) ltac:(lia)) as Hp.
  change (-53 + 200) with 147 in Hp.
  replace (eq + -53 + 200) with (eq + 147) in Hp by lia.
  rewrite Pos2Z.inj_mul in Hp.
  specialize (Hp ltac:(nia)).
  rewrite <- Pos2Z.inj_mul in Hp.
  destruct (binary_round_aux prec emax false _ (eq + -53) loc_Exact)
    as [s|s| |s mp ep]; try contradiction; [cbn; discriminate |].
  destruct Hp as (-> & Hep & Hvp). cbn.
  intros [= <-]. apply nearest_even_ge_one; [lia |].
  assert (Hl : 2 ^ 199 < Z.pos 0x162E42FEFA39EF * 2 ^ 147) by reflexivity.
  lia.
Qed.

(** For a negative expected number of elements the number of rounds is
    never positive. *)
Lemma optimal_nonpos (size n k : Z) :
  0 <= size -> n < 0 ->
  optimal_number_hash_functions size n = Return k -> k <= 0.
Proof.
  intros Hsize Hn. unfold optimal_number_hash_functions, int_true_div.
  destruct (Z.eqb_spec n 0) as [?|_]; [lia |].
  destruct size as [|pa|pa], n as [|pb|pb]; try lia.
  - cbn. intros [= <-]. lia.
  - cbn [exact_int SFdiv].
    destruct (SFdiv_core_binary prec emax (Z.pos pa) 0 (Z.pos pb) 0) as [[mz ez] lz].
    pose proof (binary_round_aux_sign (xorb false true) mz ez lz) as Hsign.
    destruct (binary_round_aux prec emax (xorb false true) mz ez lz) as [s|s| |s m e]; cbn.
    + intros [= <-]. lia.
    + discriminate.
    + discriminate.
    + subst s. unfold float_mul, math_log_2. cbn [SFmul].
      pose proof (binary_round_aux_sign (xorb true false)
                    (Z.pos (m * 0x162E42FEFA39EF)) (e + -53) loc_Exact) as Hs.
      destruct (binary_round_aux _ _ _ _ _ _) as [s'|s'| |s' m' e']; cbn;
        try discriminate.
      * intros [= <-]. lia.
      * intros [= <-]. subst s'. cbn.
        pose proof (nearest_even_nonneg (Z.pos m') e' ltac:(lia)). lia.
Qed.

(** An instance that runs no round: an insertion changes nothing and
    every lookup returns [False]. *)
Lemma no_round (f : t) (key : string) :
  number_hash_functions f <= 0 ->
  add_to_filter f key = (f, Return tt) /\
  check_is_not_in_filter f key = Return false.
Proof.
  intros Hk. unfold add_to_filter, check_is_not_in_filter.
  rewrite range_nonpos by exact Hk. split; reflexivity.
Qed.

(** X9. A capacity of zero or a negative expected number of elements
    passes /init and yields an instance that runs no round: /add is
    answered but sets no bit, and /check reports every key as possibly
    present. *)
Theorem no_capacity_or_negative_expected (s s1 : state) (c : BloomFilterConfig)
    (key : string) :
  init_bloom_filter s c = (s1, Ok Initialized) ->
  App.size c = 0 \/ App.number_expected_elements c < 0 ->
  exists f,
    s1 = Some f /\
    number_hash_functions f <= 0 /\
    add_item s1 key = (s1, Ok (Added key)) /\
    check_item s1 key = (s1, Ok (PossiblyPresent key)).
Proof.
  intros Hinit Hcase.
  apply init_bloom_filter_Ok in Hinit as (f & -> & Hf).
  apply init_fields in Hf as (Hsize & _ & _ & Hk).
  assert (Hrounds : number_hash_functions f <= 0).
  { destruct Hcase as [Hzero|Hneg].
    - rewrite Hzero in Hk. apply optimal_zero_size in Hk. lia.
    - eapply optimal_nonpos; [exact Hsize | exact Hneg | exact Hk]. }
  destruct (no_round f key Hrounds) as [Hadd Hcheck].
  exists f. split; [reflexivity |]. split; [exact Hrounds |].
  cbn. rewrite Hadd, Hcheck. split; reflexivity.
Qed.

(** X10. A capacity at least as large as a positive expected number of
    elements gives an instance that runs at least one round. *)
Theorem enough_capacity_runs_a_round (m n : Z) (names : option (list string)) (f : t) :
  __init__ m n names = Return f ->
  0 < n <= m ->
  optimal_number_hash_functions m n = Return (number_hash_functions f) /\
  1 <= number_hash_functions f.
Proof.
  intros Hinit Hmn.
  apply init_fields in Hinit as (_ & _ & _ & Hk).
  split; [exact Hk |].
  eapply optimal_at_least_one; [exact Hmn | exact Hk].
Qed.

End RoundsBounds.

(** ** Keys that share no bit *)

Section Independence.
Context {H : Hashlib}.
Import BloomFilter App.

Lemma check_rounds_same_bits (f g : t) (item : string) (rounds : list Z) :
  grows f g ->
  (forall i index p,
     i ∈ rounds -> _hash f item i = Return index ->
     Bitarray.position (bloom_filter f) index = Return p ->
     bloom_filter g !! p = bloom_filter f !! p) ->
  check_rounds g item rounds = check_rounds f item rounds.
Proof.
  intros Hg. induction rounds as [|i rounds IH]; intros Hsame; [reflexivity |].
  cbn [check_rounds]. rewrite (hash_grows _ _ _ _ Hg).
  destruct (_hash f item i) as [index|e] eqn:Hhash; [|reflexivity].
  cbn. unfold Bitarray.getitem.
  rewrite (position_length _ (bloom_filter f)) by apply (grows_length _ _ Hg).
  destruct (Bitarray.position (bloom_filter f) index) as [p|e] eqn:Hpos; [|reflexivity].
  cbn. rewrite (Hsame i index p (list_elem_of_here _ _) Hhash Hpos).
  destruct (bloom_filter f !! p) as [b|]; [|reflexivity].
  cbn. destruct b; cbn; [|reflexivity].
  apply IH. intros j idx q Hj. apply Hsame. apply list_elem_of_further. exact Hj.
Qed.

(** X11. Adding a key does not disturb the lookup of a key that shares no
    bit with it: when no round of [y] designates the bit that a round of
    [x] designates, /check of [y] gives the same result (answer or
    exception) after [x] is added as before. *)
Theorem lookup_unchanged_without_collision (f : t) (x y : string) :
  (forall i j index index' p,
     0 <= i < number_hash_functions f ->
     0 <= j < number_hash_functions f ->
     _hash f y i = Return index ->
     _hash f x j = Return index' ->
     Bitarray.position (bloom_filter f) index = Return p ->
     Bitarray.position (bloom_filter f) index' <> Return p) ->
  check_is_not_in_filter (add_to_filter f x).1 y = check_is_not_in_filter f y /\
  check_item (add_item (Some f) x).1 y
    = ((add_item (Some f) x).1, (check_item (Some f) y).2).
Proof.
  intros Hfree.
  destruct (add_to_filter f x) as [f' r] eqn:Hadd. cbn [fst].
  pose proof (add_to_filter_grows _ _ _ _ Hadd) as Hg.
  assert (Hcheck : check_is_not_in_filter f' y = check_is_not_in_filter f y).
  { unfold check_is_not_in_filter. rewrite (grows_rounds _ _ Hg).
    apply check_rounds_same_bits; [exact Hg |].
    intros i index p Hi Hhash Hpos.
    unfold add_to_filter in Hadd. rewrite add_rounds_plan in Hadd.
    injection Hadd as <- _. cbn [bloom_filter with_bits].
    rewrite set_all_lookup.
    destruct (decide _) as [[Hin _]|_]; [|reflexivity].
    exfalso.
    destruct (plan_positions _ _ _ _ Hin) as (j & index' & Hj & Hhashx & Hposx).
    apply elem_of_range in Hi. apply elem_of_range in Hj.
    exact (Hfree i j index index' p Hi Hj Hhash Hhashx Hpos Hposx). }
  split; [exact Hcheck |].
  cbn. rewrite Hadd.
  destruct r as [[]|e]; cbn; rewrite Hcheck;
    destruct (check_is_not_in_filter f y) as [[|]|e']; reflexivity.
Qed.

End Independence.

(** ** The salt of a round *)

Section Salt.
Context {H : Hashlib}.
Import BloomFilter App.

(** The little-endian digits of [10 * a + b]: the digit [b] before those of [a]. *)
Lemma to_little_uint_tenfold (a : positive) (b : N) :
  (b <= 9)%N ->
  Unsigned.to_lu (10 * N.pos a + b)
  = Nat.iter (N.to_nat b) Decimal.Little.succ (Decimal.D0 (Pos.to_little_uint a)).
Proof.
  intros Hb. induction b as [|b IH] using N.peano_ind.
  - rewrite N.add_0_r. apply Unsigned.to_ldec_tenfold.
  - rewrite N.add_succ_r, Unsigned.to_lu_succ, IH by lia.
    rewrite N2Nat.inj_succ. reflexivity.
Qed.

Lemma string_app_assoc (s1 s2 s3 : string) :
  ((s1 +:+ s2) +:+ s3 = s1 +:+ (s2 +:+ s3))%string.
Proof.
  induction s1 as [|c s1 IH]; [reflexivity |].
  change (String c ((s1 +:+ s2) +:+ s3) = String c (s1 +:+ (s2 +:+ s3)))%string.
  rewrite IH. reflexivity.
Qed.

Lemma string_of_revapp (d acc : Decimal.uint) :
  NilEmpty.string_of_uint (Decimal.revapp d acc)
  = (NilEmpty.string_of_uint (Decimal.revapp d Decimal.Nil)
     +:+ NilEmpty.string_of_uint acc)%string.
Proof.
  revert acc. induction d as [|d IH|d IH|d IH|d IH|d IH|d IH|d IH|d IH|d IH|d IH];
    intros acc; cbn [Decimal.revapp]; [reflexivity | ..];
    rewrite IH; symmetry; rewrite IH; cbn [NilEmpty.string_of_uint];
    rewrite string_app_assoc; reflexivity.
Qed.

Lemma str_pos (p : positive) :
  str (Z.pos p) = NilEmpty.string_of_uint (Pos.to_uint p).
Proof.
  unfold str. cbn [Z.to_int NilZero.string_of_int].
  unfold NilZero.string_of_uint.
  pose proof (Unsigned.to_uint_nonnil p) as Hnil.
  destruct (Pos.to_uint p); [contradiction | reflexivity ..].
Qed.

(** The decimal digits of [10 * a + b], for a digit [b], are those of
    [a] followed by [b]. *)
Lemma str_tenfold (a b : Z) :
  1 <= a -> 0 <= b <= 9 -> str (10 * a + b) = (str a +:+ str b)%string.
Proof.
  intros Ha Hb.
  destruct a as [|pa|pa]; try lia.
  assert (Hp : exists p, 10 * Z.pos pa + b = Z.pos p /\
                         N.pos p = (10 * N.pos pa + Z.to_N b)%N).
  { exists (Z.to_pos (10 * Z.pos pa + b)). split; lia. }
  destruct Hp as (p & -> & Hp).
  rewrite !str_pos. unfold Pos.to_uint, Decimal.rev.
  change (Pos.to_little_uint p) with (Unsigned.to_lu (N.pos p)).
  rewrite Hp, to_little_uint_tenfold by lia.
  assert (Hcases : b = 0 \/ b = 1 \/ b = 2 \/ b = 3 \/ b = 4 \/ b = 5 \/
                   b = 6 \/ b = 7 \/ b = 8 \/ b = 9) by lia.
  repeat (destruct Hcases as [-> | Hcases]);
    try subst b;
    simpl (Nat.iter _ _ _); cbn [Decimal.revapp];
    rewrite string_of_revapp; reflexivity.
Qed.

(** X12. The salt is ambiguous: the text hashed for [item] at round
    [10 * a + b] (with [a >= 1] and [b] a digit) is the text hashed for
    the longer key [item ++ str(a)] at round [b]. When both rounds select
    the same function they hash alike, so that once [item] has been added
    by an instance that runs more than [10 * a + b] rounds, the bit of
    round [b] of the longer key is set as well. *)
Theorem salt_overlaps_longer_key (f f' : t) (item : string) (a b : Z) :
  1 <= a -> 0 <= b <= 9 ->
  (10 * a + b) mod Z.of_nat (length (hash_functions f))
    = b mod Z.of_nat (length (hash_functions f)) ->
  _hash f item (10 * a + b) = _hash f (item +:+ str a) b /\
  (add_to_filter f item = (f', Return tt) ->
   10 * a + b < number_hash_functions f ->
   exists index,
     _hash f' (item +:+ str a) b = Return index /\
     Bitarray.getitem (bloom_filter f') index = Return true).
Proof.
  intros Ha Hb Hmod.
  assert (Hsame : _hash f item (10 * a + b) = _hash f (item +:+ str a) b).
  { unfold _hash, int_mod. rewrite Hmod, str_tenfold by assumption.
    rewrite string_app_assoc. reflexivity. }
  split; [exact Hsame |].
  intros Hadd Hround.
  pose proof (add_to_filter_grows _ _ _ _ Hadd) as Hg.
  pose proof (check_grown _ _ _ _ Hadd (grows_refl f')) as Hcheck.
  unfold check_is_not_in_filter in Hcheck.
  rewrite (grows_rounds _ _ Hg) in Hcheck.
  destruct (proj1 (check_rounds_false_iff _ _ _) Hcheck (10 * a + b))
    as (index & Hhash & Hbit).
  { apply elem_of_range. lia. }
  exists index. split; [|exact Hbit].
  rewrite (hash_grows _ _ _ _ Hg) in Hhash.
  rewrite (hash_grows _ _ _ _ Hg), <- Hsame. exact Hhash.
Qed.

End Salt.

(** ** The statements on examples, and the cases the code decides
    otherwise *)

Section Examples.
Import BloomFilter App Sample.
Local Open Scope string_scope.

(** C1 on the sample run: ["abc"] is still reported after three more
    calls. *)
Lemma no_false_negatives_witness :
  add_item (H := hashlib) fresh "abc" = (with_abc, Ok (Added "abc")) /\
  Forall keeps_instance later_calls /\
  check_item (H := hashlib) after_calls "abc"
    = (after_calls, Ok (PossiblyPresent "abc")).
Proof.
  assert (Hadd : add_item (H := hashlib) fresh "abc" = (with_abc, Ok (Added "abc")))
    by (vm_compute; reflexivity).
  assert (Hkeep : Forall keeps_instance later_calls)
    by (repeat constructor).
  split; [exact Hadd |]. split; [exact Hkeep |].
  apply (no_false_negatives (H := hashlib) fresh with_abc after_calls "abc"
           later_calls (serve (H := hashlib) with_abc later_calls).2 Hadd Hkeep).
  vm_compute. reflexivity.
Defined.

(** C5 on the sample calls: two failed /init among them change
    nothing. *)
Lemma uninitialized_calls_fail_witness :
  Forall (fun a => a <> Ok Initialized)
    (serve (H := hashlib) initial early_calls).2 /\
  add_item (H := hashlib) (serve (H := hashlib) initial early_calls).1 "k"
    = (initial, HTTPException 400 NotInitialized).
Proof.
  assert (Hnone : Forall (fun a => a <> Ok Initialized)
                    (serve (H := hashlib) initial early_calls).2).
  { vm_compute. repeat constructor; discriminate. }
  split; [exact Hnone |].
  refine (proj1 (proj2 (proj2
    (uninitialized_calls_fail (H := hashlib) early_calls
       (serve (H := hashlib) initial early_calls).1
       (serve (H := hashlib) initial early_calls).2 "k" _ Hnone)))).
  vm_compute. reflexivity.
Defined.

(** C8 on two runs: the same configuration installed over an empty
    global and over a used instance, then the keys ["abc"] and ["abd"]
    added, in one run between a /check and a failed /init, in the other
    without them. *)
Lemma deterministic_witness :
  init_bloom_filter (H := hashlib) initial (config 20 3 ["md5"; "sha256"])
    = (fresh, Ok Initialized) /\
  init_bloom_filter (H := hashlib) after_calls (config 20 3 ["md5"; "sha256"])
    = (fresh, Ok Initialized) /\
  Forall (fun a => a <> Ok Initialized) (serve (H := hashlib) fresh mixed_calls).2 /\
  Forall (fun a => a <> Ok Initialized)
    (serve (H := hashlib) fresh [Add "abc"; Add "abd"]).2 /\
  added mixed_calls = added [Add "abc"; Add "abd"] /\
  (serve (H := hashlib) fresh mixed_calls).1
    = (serve (H := hashlib) fresh [Add "abc"; Add "abd"]).1.
Proof.
  assert (H1 : init_bloom_filter (H := hashlib) initial (config 20 3 ["md5"; "sha256"])
               = (fresh, Ok Initialized)) by (vm_compute; reflexivity).
  assert (H2 : init_bloom_filter (H := hashlib) after_calls (config 20 3 ["md5"; "sha256"])
               = (fresh, Ok Initialized)) by (vm_compute; reflexivity).
  assert (H3 : Forall (fun a => a <> Ok Initialized)
                 (serve (H := hashlib) fresh mixed_calls).2)
    by (vm_compute; repeat constructor; discriminate).
  assert (H4 : Forall (fun a => a <> Ok Initialized)
                 (serve (H := hashlib) fresh [Add "abc"; Add "abd"]).2)
    by (vm_compute; repeat constructor; discriminate).
  assert (H5 : added mixed_calls = added [Add "abc"; Add "abd"]) by reflexivity.
  split; [exact H1 |]. split; [exact H2 |]. split; [exact H3 |].
  split; [exact H4 |]. split; [exact H5 |].
  exact (proj1 (proj2 (deterministic (H := hashlib) initial after_calls fresh fresh
                         _ _ (config 20 3 ["md5"; "sha256"])
                         mixed_calls [Add "abc"; Add "abd"] _ _ "abc"
                         H1 H2 (surjective_pairing _) (surjective_pairing _)
                         H3 H4 H5))).
Defined.


(** C10 on an instance of 5 bits tuned for one element (3 rounds) with no
    algorithm. *)
Lemma empty_names_zero_division_witness :
  0 <= 5 /\ Bitarray.index_sized 5 /\ 1 <> 0 /\
  exists self,
    init_bloom_filter (H := hashlib) initial (config 5 1 []) = (Some self, Ok Initialized) /\
    number_hash_functions self = 3 /\
    add_item (H := hashlib) (Some self) "a" = (Some self, Uncaught ZeroDivisionError) /\
    check_item (H := hashlib) (Some self) "a" = (Some self, Uncaught ZeroDivisionError).
Proof.
  assert (Hm : 0 <= 5) by lia.
  assert (Hindex : Bitarray.index_sized 5) by (unfold Bitarray.index_sized; lia).
  assert (Hn : 1 <> 0) by lia.
  split; [exact Hm |]. split; [exact Hindex |]. split; [exact Hn |].
  destruct (empty_names_zero_division (H := hashlib) 5 1 "a" Hm Hindex Hn)
    as (self & _ & Hinit & _ & Hk & Hraise).
  assert (Hk3 : number_hash_functions self = 3).
  { assert (Hv : optimal_number_hash_functions 5 1 = Return 3) by (vm_compute; reflexivity).
    congruence. }
  destruct (Hraise ltac:(lia)) as (_ & _ & Hadd & Hcheck & _).
  exists self. split; [exact Hinit |]. split; [exact Hk3 |].
  split; [exact Hadd | exact Hcheck].
Defined.

(** C2 on the sample instance: 20 bits for 3 elements run
    [round(6.67 * 0.693) = 5] rounds. *)
Lemma rounds_formula_nonneg_witness :
  (exists self,
     __init__ (H := hashlib) 20 3 (Some ["md5"; "sha256"]) = Return self /\
     optimal_number_hash_functions 20 3 = Return (number_hash_functions self) /\
     number_hash_functions self = 5 /\
     0 <= number_hash_functions self) /\
  0 < 20 /\ 0 < 3.
Proof.
  assert (Hinit : __init__ (H := hashlib) 20 3 (Some ["md5"; "sha256"])
                  = Return {| BloomFilter.size := 20;
                              BloomFilter.number_expected_elements := 3;
                              bloom_filter := replicate 20 false;
                              number_hash_functions := 5;
                              hash_functions := ["md5"; "sha256"] |})
    by (vm_compute; reflexivity).
  assert (Hm : 0 < 20) by lia.
  assert (Hn : 0 < 3) by lia.
  split; [|split; [exact Hm | exact Hn]].
  eexists. split; [exact Hinit |].
  destruct (rounds_formula_nonneg (H := hashlib) 20 3 _ _ Hinit Hm Hn) as (Hk & _ & Hpos).
  split; [exact Hk |]. split; [reflexivity | exact Hpos].
Defined.

(** C2, the case the code decides otherwise: one bit for 100 expected
    elements is a valid configuration, and the instance runs
    [round(0.01 * 0.693) = 0] rounds, not at least one. *)
Lemma rounds_minimum_counterexample :
  0 < 1 /\ 0 < 100 /\
  exists self,
    __init__ (H := hashlib) 1 100 (Some ["md5"]) = Return self /\
    optimal_number_hash_functions 1 100 = Return 0 /\
    number_hash_functions self = 0 /\
    ~ 1 <= number_hash_functions self.
Proof.
  split; [lia |]. split; [lia |].
  eexists. split; [vm_compute; reflexivity |].
  split; [vm_compute; reflexivity |]. split; [reflexivity |]. cbn. lia.
Qed.

(** C9 on the sample setting, where ["sha256"] is available. *)
Lemma rounds_example_1000_100_witness :
  "sha256" ∈ algorithms_available (Hashlib := hashlib) /\
  exists f,
    init_bloom_filter (H := hashlib) initial (config 1000 100 ["sha256"])
      = (Some f, Ok Initialized) /\
    number_hash_functions f = 7.
Proof.
  assert (Hsha : "sha256" ∈ algorithms_available (Hashlib := hashlib))
    by (vm_compute; set_solver).
  split; [exact Hsha |].
  exact (proj2 (rounds_example_1000_100 (H := hashlib) initial Hsha)).
Defined.

(** C3 on a configuration with an unknown name: the 400 error, and the
    global stays unset, so that /add is then refused. *)
Lemma init_outcomes_witness :
  Bitarray.index_sized 5 /\
  init_bloom_filter (H := hashlib) initial (config 5 1 ["nope"])
    = (initial, HTTPException 400 InvalidConfiguration) /\
  (ConfigurationError (HTTPException 400 InvalidConfiguration) <->
     5 < 0 \/ (1 <> 0 /\
       ~ Forall (fun name => name ∈ algorithms_available (Hashlib := hashlib)) ["nope"])) /\
  UninitializedError (add_item (H := hashlib) initial "k").2.
Proof.
  assert (Hbound : Bitarray.index_sized (App.size (config 5 1 ["nope"])))
    by (unfold Bitarray.index_sized; cbn; lia).
  assert (Hinit : init_bloom_filter (H := hashlib) initial (config 5 1 ["nope"])
                  = (initial, HTTPException 400 InvalidConfiguration))
    by (vm_compute; reflexivity).
  split; [exact Hbound |]. split; [exact Hinit |].
  destruct (init_outcomes (H := hashlib) initial initial (config 5 1 ["nope"])
              (HTTPException 400 InvalidConfiguration) "k" Hbound Hinit)
    as (Hconf & _ & _ & Hkeep).
  split; [exact Hconf |].
  apply Hkeep; [discriminate | reflexivity].
Defined.

(** C3, the cases the code decides otherwise. A capacity of zero and a
    negative expected number of elements are accepted and an instance is
    installed; zero expected elements stops /init with
    [ZeroDivisionError], which is not the configuration error. *)
Lemma configuration_validation_counterexample :
  (init_bloom_filter (H := hashlib) initial (config 0 1 ["md5"])
     = (Some {| BloomFilter.size := 0;
                BloomFilter.number_expected_elements := 1;
                bloom_filter := [];
                number_hash_functions := 0;
                hash_functions := ["md5"] |}, Ok Initialized) /\
   ~ ConfigurationError
       (init_bloom_filter (H := hashlib) initial (config 0 1 ["md5"])).2) /\
  (init_bloom_filter (H := hashlib) initial (config 5 (-1) ["md5"])
     = (Some {| BloomFilter.size := 5;
                BloomFilter.number_expected_elements := -1;
                bloom_filter := [false; false; false; false; false];
                number_hash_functions := -3;
                hash_functions := ["md5"] |}, Ok Initialized) /\
   ~ ConfigurationError
       (init_bloom_filter (H := hashlib) initial (config 5 (-1) ["md5"])).2) /\
  (init_bloom_filter (H := hashlib) initial (config 5 0 ["md5"])
     = (initial, Uncaught ZeroDivisionError) /\
   ~ ConfigurationError
       (init_bloom_filter (H := hashlib) initial (config 5 0 ["md5"])).2).
Proof.
  repeat split; try (vm_compute; reflexivity); vm_compute; discriminate.
Qed.

(** C6 on the sample run: a new instance of 20 bits over the used one. *)
Lemma replacement_discards_bits_witness :
  init_bloom_filter (H := hashlib) initial (config 20 3 ["md5"; "sha256"])
    = (fresh, Ok Initialized) /\
  add_item (H := hashlib) fresh "abc" = (with_abc, Ok (Added "abc")) /\
  init_bloom_filter (H := hashlib) with_abc (config 20 3 ["sha256"])
    = (replaced, Ok Initialized) /\
  check_item (H := hashlib) replaced "abc" = (replaced, Ok (DefinitelyAbsent "abc")).
Proof.
  assert (H1 : init_bloom_filter (H := hashlib) initial (config 20 3 ["md5"; "sha256"])
               = (fresh, Ok Initialized)) by (vm_compute; reflexivity).
  assert (H2 : add_item (H := hashlib) fresh "abc" = (with_abc, Ok (Added "abc")))
    by (vm_compute; reflexivity).
  assert (H3 : init_bloom_filter (H := hashlib) with_abc (config 20 3 ["sha256"])
               = (replaced, Ok Initialized)) by (vm_compute; reflexivity).
  split; [exact H1 |]. split; [exact H2 |]. split; [exact H3 |].
  destruct (replacement_discards_bits (H := hashlib) initial fresh with_abc replaced
              (config 20 3 ["md5"; "sha256"]) (config 20 3 ["sha256"])
              "abc" _ H1 H2 H3) as (f & Hf & _ & Habsent & _).
  assert (Hv : replaced = Some {| BloomFilter.size := 20;
                                  BloomFilter.number_expected_elements := 3;
                                  bloom_filter := replicate 20 false;
                                  number_hash_functions := 5;
                                  hash_functions := ["sha256"] |})
    by (vm_compute; reflexivity).
  rewrite Hv in Hf. injection Hf as <-.
  assert (Hhash : exists index,
            _hash (H := hashlib)
              {| BloomFilter.size := 20;
                 BloomFilter.number_expected_elements := 3;
                 bloom_filter := replicate 20 false;
                 number_hash_functions := 5;
                 hash_functions := ["sha256"] |} "abc" 0 = Return index)
    by (eexists; vm_compute; reflexivity).
  destruct Hhash as [index Hhash].
  apply (Habsent ltac:(cbn; lia) index Hhash).
Defined.

(** C6, the case the code decides otherwise: the new instance has one bit
    for 100 expected elements, hence no round, and /check of the key
    added to the old instance answers "possibly present". *)
Lemma replacement_counterexample :
  exists s1 s2 s3,
    init_bloom_filter (H := hashlib) initial (config 20 3 ["md5"; "sha256"])
      = (s1, Ok Initialized) /\
    add_item (H := hashlib) s1 "x" = (s2, Ok (Added "x")) /\
    init_bloom_filter (H := hashlib) s2 (config 1 100 ["md5"]) = (s3, Ok Initialized) /\
    check_item (H := hashlib) s3 "x" = (s3, Ok (PossiblyPresent "x")) /\
    (check_item (H := hashlib) s3 "x").2 <> Ok (DefinitelyAbsent "x").
Proof.
  do 3 eexists.
  split; [vm_compute; reflexivity |].
  split; [vm_compute; reflexivity |].
  split; [vm_compute; reflexivity |].
  split; [vm_compute; reflexivity | vm_compute; discriminate].
Qed.

End Examples.

(** ** The further properties on examples *)

Section MoreExamples.
Import BloomFilter App Sample.
Local Open Scope string_scope.

(** The sample instances are the ones the constructor returns. *)
Lemma sample_instances :
  __init__ (H := hashlib) 20 3 (Some ["md5"; "sha256"]) = Return twenty_bits /\
  __init__ (H := hashlib) 1 1 (Some ["md5"]) = Return one_bit /\
  __init__ (H := hashlib) 2 2 (Some ["sha256"]) = Return two_bits.
Proof. repeat split; vm_compute; reflexivity. Qed.

(** X1 on the instance of 20 bits: bit 5 is one that adding ["abc"] sets. *)
Lemma add_changes_only_round_bits_witness :
  add_to_filter (H := hashlib) twenty_bits "abc"
    = ((add_to_filter (H := hashlib) twenty_bits "abc").1, Return tt) /\
  bloom_filter (add_to_filter (H := hashlib) twenty_bits "abc").1 !! 5%nat
    <> bloom_filter twenty_bits !! 5%nat /\
  exists i index,
    0 <= i < 5 /\
    _hash (H := hashlib) twenty_bits "abc" i = Return index /\
    Bitarray.position (bloom_filter twenty_bits) index = Return 5%nat.
Proof.
  assert (Hadd : add_to_filter (H := hashlib) twenty_bits "abc"
                 = ((add_to_filter (H := hashlib) twenty_bits "abc").1, Return tt))
    by (vm_compute; reflexivity).
  assert (Hdiff : bloom_filter (add_to_filter (H := hashlib) twenty_bits "abc").1 !! 5%nat
                  <> bloom_filter twenty_bits !! 5%nat)
    by (vm_compute; discriminate).
  split; [exact Hadd |]. split; [exact Hdiff |].
  exact (proj2 (proj2 (add_changes_only_round_bits (H := hashlib) twenty_bits _ "abc"
                         (Return tt) 5%nat Hadd Hdiff))).
Defined.

(** X4 on an instance whose second algorithm cannot produce a digest
    text: the exception that leaves /add is the one its hash raised. *)
Lemma errors_come_from_hashing_witness :
  serve (H := hashlib) initial [Init (config 5 1 ["md5"; "shake_128"])]
    = ((serve (H := hashlib) initial [Init (config 5 1 ["md5"; "shake_128"])]).1,
       [Ok Initialized]) /\
  (add_item (H := hashlib)
     (serve (H := hashlib) initial [Init (config 5 1 ["md5"; "shake_128"])]).1 "a").2
    = Uncaught TypeError /\
  exists f i,
    (serve (H := hashlib) initial [Init (config 5 1 ["md5"; "shake_128"])]).1 = Some f /\
    0 <= i < number_hash_functions f /\
    _hash (H := hashlib) f "a" i = Raise TypeError.
Proof.
  assert (Hserve : serve (H := hashlib) initial [Init (config 5 1 ["md5"; "shake_128"])]
    = ((serve (H := hashlib) initial [Init (config 5 1 ["md5"; "shake_128"])]).1,
       [Ok Initialized])) by (vm_compute; reflexivity).
  assert (Hadd : add_item (H := hashlib)
     (serve (H := hashlib) initial [Init (config 5 1 ["md5"; "shake_128"])]).1 "a"
    = ((add_item (H := hashlib)
         (serve (H := hashlib) initial [Init (config 5 1 ["md5"; "shake_128"])]).1 "a").1,
       Uncaught TypeError)) by (vm_compute; reflexivity).
  split; [exact Hserve |]. split; [rewrite Hadd; reflexivity |].
  exact (errors_come_from_hashing (H := hashlib) _ _ _ _ "a" TypeError Hserve
           (or_introl Hadd)).
Defined.

(** X6 on the instance of one bit: every key hashes to bit 0, so adding
    ["x"] makes ["y"] a false positive, and they collide. *)
Lemma false_positive_needs_collision_witness :
  check_is_not_in_filter (H := hashlib) one_bit "y" = Return true /\
  check_is_not_in_filter (H := hashlib)
    (add_to_filter (H := hashlib) one_bit "x").1 "y" = Return false /\
  exists i j index index' p,
    0 <= i < 1 /\ 0 <= j < 1 /\
    _hash (H := hashlib) one_bit "y" i = Return index /\
    _hash (H := hashlib) one_bit "x" j = Return index' /\
    Bitarray.position (bloom_filter one_bit) index = Return p /\
    Bitarray.position (bloom_filter one_bit) index' = Return p.
Proof.
  assert (Hbefore : check_is_not_in_filter (H := hashlib) one_bit "y" = Return true)
    by (vm_compute; reflexivity).
  assert (Hafter : check_is_not_in_filter (H := hashlib)
                     (add_to_filter (H := hashlib) one_bit "x").1 "y" = Return false)
    by (vm_compute; reflexivity).
  split; [exact Hbefore |]. split; [exact Hafter |].
  exact (false_positive_needs_collision (H := hashlib) one_bit "x" "y" Hbefore Hafter).
Defined.

(** X7 on the sample run: the three later calls keep the instance that
    holds ["abc"] and every bit it has set. *)
Lemma calls_only_set_bits_witness :
  Forall keeps_instance later_calls /\
  exists f g,
    with_abc = Some f /\ after_calls = Some g /\
    length (bloom_filter g) = length (bloom_filter f) /\
    (count_true (bloom_filter f) <= count_true (bloom_filter g))%nat.
Proof.
  assert (Hkeep : Forall keeps_instance later_calls) by (repeat constructor).
  split; [exact Hkeep |].
  assert (Hf : with_abc = Some (add_to_filter (H := hashlib) twenty_bits "abc").1)
    by (vm_compute; reflexivity).
  assert (Hserve : serve (H := hashlib)
                     (Some (add_to_filter (H := hashlib) twenty_bits "abc").1) later_calls
                   = (after_calls, (serve (H := hashlib) with_abc later_calls).2))
    by (vm_compute; reflexivity).
  destruct (calls_only_set_bits (H := hashlib) _ later_calls _ _ Hkeep Hserve)
    as (g & Hg & _ & _ & _ & Hlen & _ & Hcount).
  exists (add_to_filter (H := hashlib) twenty_bits "abc").1, g.
  split; [exact Hf |]. split; [exact Hg |]. split; [exact Hlen | exact Hcount].
Defined.

(** The two sample digests that answer do so on every non-empty input. *)
Lemma sample_digests_answer :
  digests_answer (H := hashlib) ["md5"; "sha256"].
Proof.
  intros name data Hname Hdata.
  apply elem_of_cons in Hname as [->|Hname].
  - exists data. split; [exact Hdata | reflexivity].
  - apply elem_of_cons in Hname as [->|Hname].
    + exists (rev data). split; [|reflexivity].
      destruct data as [|b data]; [contradiction |].
      cbn. intros Hnil. apply app_eq_nil in Hnil as [_ Hnil]. discriminate.
    + apply elem_of_nil in Hname. contradiction.
Defined.

(** X8 on the sample run: the keys are ASCII texts, and the three calls
    made after ["abc"] was added are all answered. *)
Lemma working_digests_always_answer_witness :
  init_bloom_filter (H := hashlib) initial (config 20 3 ["md5"; "sha256"])
    = (fresh, Ok Initialized) /\
  ["md5"; "sha256"] <> [] /\
  digests_answer (H := hashlib) ["md5"; "sha256"] /\
  Forall encodable (Add "abc" :: later_calls) /\
  Forall answered (serve (H := hashlib) fresh (Add "abc" :: later_calls)).2.
Proof.
  assert (Hinit : init_bloom_filter (H := hashlib) initial (config 20 3 ["md5"; "sha256"])
                  = (fresh, Ok Initialized)) by (vm_compute; reflexivity).
  assert (Hnames : App.hash_function_names (config 20 3 ["md5"; "sha256"]) <> [])
    by discriminate.
  assert (Hkeep : Forall encodable (Add "abc" :: later_calls)).
  { constructor; [exists [97; 98; 99]%N; reflexivity |].
    constructor; [exists [97; 98; 100]%N; reflexivity |].
    constructor; [exists [120; 121; 122]%N; reflexivity |].
    constructor; [exists [120]%N; reflexivity | constructor]. }
  split; [exact Hinit |]. split; [exact Hnames |].
  split; [exact sample_digests_answer |]. split; [exact Hkeep |].
  apply (working_digests_always_answer (H := hashlib) initial fresh
           (serve (H := hashlib) fresh (Add "abc" :: later_calls)).1
           (config 20 3 ["md5"; "sha256"]) (Add "abc" :: later_calls) _
           Hinit Hnames sample_digests_answer Hkeep).
  vm_compute. reflexivity.
Defined.

(** X9 on five bits for -1 expected elements: -3 rounds, so nothing is
    ever set and everything is possibly present. *)
Lemma no_capacity_or_negative_expected_witness :
  init_bloom_filter (H := hashlib) initial (config 5 (-1) ["md5"])
    = ((init_bloom_filter (H := hashlib) initial (config 5 (-1) ["md5"])).1,
       Ok Initialized) /\
  (5 = 0 \/ -1 < 0) /\
  check_item (H := hashlib)
    (init_bloom_filter (H := hashlib) initial (config 5 (-1) ["md5"])).1 "never added"
  = ((init_bloom_filter (H := hashlib) initial (config 5 (-1) ["md5"])).1,
     Ok (PossiblyPresent "never added")).
Proof.
  assert (Hinit : init_bloom_filter (H := hashlib) initial (config 5 (-1) ["md5"])
                  = ((init_bloom_filter (H := hashlib) initial (config 5 (-1) ["md5"])).1,
                     Ok Initialized)) by (vm_compute; reflexivity).
  assert (Hcase : App.size (config 5 (-1) ["md5"]) = 0 \/
                  App.number_expected_elements (config 5 (-1) ["md5"]) < 0)
    by (right; cbn; lia).
  split; [exact Hinit |]. split; [exact Hcase |].
  destruct (no_capacity_or_negative_expected (H := hashlib) initial _
              (config 5 (-1) ["md5"]) "never added" Hinit Hcase)
    as (f & _ & _ & _ & Hcheck).
  exact Hcheck.
Defined.

(** X10 on the instance of 20 bits for 3 elements. *)
Lemma enough_capacity_runs_a_round_witness :
  __init__ (H := hashlib) 20 3 (Some ["md5"; "sha256"]) = Return twenty_bits /\
  0 < 3 <= 20 /\
  1 <= number_hash_functions twenty_bits.
Proof.
  assert (Hinit : __init__ (H := hashlib) 20 3 (Some ["md5"; "sha256"]) = Return twenty_bits)
    by (vm_compute; reflexivity).
  assert (Hmn : 0 < 3 <= 20) by lia.
  split; [exact Hinit |]. split; [exact Hmn |].
  exact (proj2 (enough_capacity_runs_a_round (H := hashlib) 20 3 _ _ Hinit Hmn)).
Defined.

(** The single rounds of ["a"] and ["b"] on the instance of two bits
    designate different bits. *)
Lemma two_bits_no_collision :
  forall i j index index' p,
    0 <= i < number_hash_functions two_bits ->
    0 <= j < number_hash_functions two_bits ->
    _hash (H := hashlib) two_bits "b" i = Return index ->
    _hash (H := hashlib) two_bits "a" j = Return index' ->
    Bitarray.position (bloom_filter two_bits) index = Return p ->
    Bitarray.position (bloom_filter two_bits) index' <> Return p.
Proof.
  intros i j index index' p Hi Hj. cbn in Hi, Hj.
  assert (i = 0) as -> by lia. assert (j = 0) as -> by lia.
  vm_compute. intros [= <-] [= <-] [= <-]. discriminate.
Defined.

(** X11 on the instance of two bits: adding ["a"] (bit 1) leaves the
    lookup of ["b"] (bit 0) at "definitely absent". *)
Lemma lookup_unchanged_without_collision_witness :
  check_is_not_in_filter (H := hashlib) two_bits "b" = Return true /\
  check_is_not_in_filter (H := hashlib)
    (add_to_filter (H := hashlib) two_bits "a").1 "b" = Return true.
Proof.
  assert (Hbefore : check_is_not_in_filter (H := hashlib) two_bits "b" = Return true)
    by (vm_compute; reflexivity).
  split; [exact Hbefore |].
  rewrite <- Hbefore.
  exact (proj1 (lookup_unchanged_without_collision (H := hashlib) two_bits "a" "b"
                  two_bits_no_collision)).
Defined.

(** X12 on the instance of 20 bits, whose two functions alternate:
    rounds 11 and 1 select the same one, and the text hashed for ["abc"]
    at round 11 is the text hashed for ["abc1"] at round 1. *)
Lemma salt_overlaps_longer_key_witness :
  1 <= 1 /\ 0 <= 1 <= 9 /\
  (10 * 1 + 1) mod Z.of_nat (length (hash_functions twenty_bits))
    = 1 mod Z.of_nat (length (hash_functions twenty_bits)) /\
  _hash (H := hashlib) twenty_bits "abc" 11 = _hash (H := hashlib) twenty_bits "abc1" 1.
Proof.
  assert (Ha : 1 <= 1) by lia.
  assert (Hb : 0 <= 1 <= 9) by lia.
  assert (Hmod : (10 * 1 + 1) mod Z.of_nat (length (hash_functions twenty_bits))
                 = 1 mod Z.of_nat (length (hash_functions twenty_bits)))
    by reflexivity.
  split; [exact Ha |]. split; [exact Hb |]. split; [exact Hmod |].
  exact (proj1 (salt_overlaps_longer_key (H := hashlib) twenty_bits twenty_bits
                  "abc" 1 1 Ha Hb Hmod)).
Defined.

End MoreExamples.
